(** * The capture-to-encoder bridge of [udp_cam_libcamera_gst.cpp]

    A shallow embedding of the libcamera completion callback
    ([requestComplete]), the GLib timer callback ([push_frame]), the
    interrupt handler and [main], followed by the properties of the
    bridge that the specification states.

    Conventions.
    - C integers are [Z] with the wrap-around of their width written out
      ([wrap32], [wrap64]).
    - A mapped plane, the heap region behind the global [frame] and the
      payload of a [GstBuffer] are [list byte]; the length of the list is
      the size of the region.
    - Every call that is visible outside the process (or that allocates)
      is appended to the [trace] of the [world], oldest first.
    - A [memcpy] outside the bounds of either region, or through a null
      pointer, ends the run with [Crash]: nothing is said about what the
      machine does after undefined behaviour. *)

From Stdlib Require Import ZArith List Lia Bool String Ascii.
From Stdlib Require Import Strings.Byte DecimalString.
Import ListNotations.
Local Open Scope Z_scope.

(** ** Machine integers and GStreamer constants *)

Definition wrap32 (z : Z) : Z := z mod 2 ^ 32.
Definition wrap64 (z : Z) : Z := z mod 2 ^ 64.

Definition G_MAXUINT64 : Z := 2 ^ 64 - 1.
Definition GST_SECOND : Z := 1000000000.
Definition FPS : Z := 30.

(** [gst_util_uint64_scale_int (val, num, denom)]: [val * num / denom]
    rounded down, saturating at [G_MAXUINT64]. *)
Definition gst_util_uint64_scale_int (val num denom : Z) : Z :=
  let r := (val * num) / denom in
  if r <=? G_MAXUINT64 then r else G_MAXUINT64.

Inductive GstFlowReturn :=
| GST_FLOW_OK
| GST_FLOW_NOT_LINKED
| GST_FLOW_FLUSHING
| GST_FLOW_EOS
| GST_FLOW_NOT_NEGOTIATED
| GST_FLOW_ERROR
| GST_FLOW_NOT_SUPPORTED.

Definition flow_code (r : GstFlowReturn) : Z :=
  match r with
  | GST_FLOW_OK => 0
  | GST_FLOW_NOT_LINKED => -1
  | GST_FLOW_FLUSHING => -2
  | GST_FLOW_EOS => -3
  | GST_FLOW_NOT_NEGOTIATED => -4
  | GST_FLOW_ERROR => -5
  | GST_FLOW_NOT_SUPPORTED => -6
  end.

Definition flow_is_ok (r : GstFlowReturn) : bool :=
  match r with GST_FLOW_OK => true | _ => false end.

Record GstBuffer := mkBuffer {
  buf_data : list byte;
  buf_pts : Z;
  buf_duration : Z }.

(** ** libcamera requests *)

(** One plane of a completed frame buffer: the driver's
    [metadata().planes()[i].bytesused] and the mapped span
    [image->data(i)]. *)
Record Plane := mkPlane {
  bytesused : Z;
  data : list byte }.

Record FrameBuffer := mkFrameBuffer { planes : list Plane }.

Inductive RequestStatus := RequestPending | RequestComplete | RequestCancelled.

Record Request := mkRequest {
  cookie : Z;
  status : RequestStatus;
  buffers : list FrameBuffer }.

Definition status_eqb (a b : RequestStatus) : bool :=
  match a, b with
  | RequestPending, RequestPending
  | RequestComplete, RequestComplete
  | RequestCancelled, RequestCancelled => true
  | _, _ => false
  end.

(** ** The process state *)

Inductive fault := NullPointer | ReadOutOfBounds | WriteOutOfBounds.

Inductive event :=
| EvCerrPayload (payload plane_size : Z)   (* "payload size .. larger than plane size .." on std::cerr *)
| EvMalloc (n : Z) (ok : bool)             (* malloc(n); ok = a non-null pointer came back *)
| EvReuse (c : Z)                          (* request->reuse(ReuseBuffers) *)
| EvQueueRequest (c : Z)                   (* g_camera->queueRequest(request) *)
| EvPushBuffer (b : GstBuffer) (r : GstFlowReturn)  (* "push-buffer" on g_appsrc and its answer *)
| EvPrintFailed (code : Z)                 (* g_print("Failed to push buffer: %d\n") *)
| EvEndOfStream                            (* gst_app_src_end_of_stream(g_appsrc) *)
| EvCerr (msg : string)                    (* other text on std::cerr *)
| EvCout (msg : string)                    (* text on std::cout *)
| EvCamManagerStart
| EvCamManagerStop
| EvCameraGet
| EvCameraAcquire
| EvCameraRelease
| EvGenerateConfiguration
| EvValidate
| EvConfigure
| EvAllocate
| EvAllocatorFree
| EvCreateRequest (i : Z)
| EvAddBuffer (i : Z)
| EvConnectCallback
| EvCameraStart
| EvCameraStop
| EvGstInit
| EvParseLaunch (desc : string)            (* gst_parse_launch(pipeline_desc, &err) *)
| EvGetByName (name : string)
| EvSetState (playing : bool)              (* GST_STATE_PLAYING, or GST_STATE_NULL *)
| EvTimeoutAdd (interval_ms : Z)           (* g_timeout_add(interval, push_frame, NULL) *)
| EvMainLoopNew
| EvMainLoopRun
| EvObjectUnref (what : string).           (* gst_object_unref *)

(** The globals of the translation unit that the callbacks touch, the
    function-static [timestamp] of [push_frame], and the trace. *)
Record world := mkWorld {
  frame : option (list byte)   (* uint8_t *frame: None is nullptr *);
  bytes_used : Z   (* size_t bytes_used *);
  timestamp : Z   (* static guint64 timestamp of push_frame *);
  g_running : bool   (* std::atomic<bool> g_running *);
  g_appsrc : bool   (* g_appsrc != nullptr *);
  width : Z   (* uint32_t width *);
  height : Z   (* uint32_t height *);
  timer_armed : bool   (* the GLib timeout source of push_frame is attached *);
  loop_is_running : bool   (* is_running of the GMainLoop *);
  sigint_installed : bool   (* SIGINT disposition: false is SIG_DFL *);
  trace : list event }.

Definition initial_world : world :=
  {| frame := None;
     bytes_used := 0;
     timestamp := 0;
     g_running := true;
     g_appsrc := false;
     width := 800;
     height := 600;
     timer_armed := false;
     loop_is_running := false;
     sigint_installed := false;
     trace := [] |}.

(** ** A state-and-crash monad *)

Inductive result (A : Type) :=
| Ok (a : A) (w : world)
| Crash (f : fault) (w : world).
Arguments Ok {A} a w.
Arguments Crash {A} f w.

Definition M (A : Type) : Type := world -> result A.

Definition ret {A} (a : A) : M A := fun w => Ok a w.

Definition bind {A B} (m : M A) (k : A -> M B) : M B :=
  fun w => match m w with
           | Ok a w' => k a w'
           | Crash f w' => Crash f w'
           end.

Declare Scope m_scope.
Delimit Scope m_scope with m.
Notation "x <- m ;; k" := (bind m (fun x => k))
  (at level 61, m at next level, right associativity) : m_scope.
Notation "m ;; k" := (bind m (fun _ => k))
  (at level 61, right associativity) : m_scope.

Definition crash {A} (f : fault) : M A := fun w => Crash f w.
Definition get {A} (proj : world -> A) : M A := fun w => Ok (proj w) w.
Definition emit (e : event) : M unit :=
  fun w =>
    Ok tt {| frame := frame w;
          bytes_used := bytes_used w;
          timestamp := timestamp w;
          g_running := g_running w;
          g_appsrc := g_appsrc w;
          width := width w;
          height := height w;
          timer_armed := timer_armed w;
          loop_is_running := loop_is_running w;
          sigint_installed := sigint_installed w;
          trace := trace w ++ [e] |}.
Definition set_frame (f : option (list byte)) : M unit :=
  fun w =>
    Ok tt {| frame := f;
          bytes_used := bytes_used w;
          timestamp := timestamp w;
          g_running := g_running w;
          g_appsrc := g_appsrc w;
          width := width w;
          height := height w;
          timer_armed := timer_armed w;
          loop_is_running := loop_is_running w;
          sigint_installed := sigint_installed w;
          trace := trace w |}.
Definition set_bytes_used (n : Z) : M unit :=
  fun w =>
    Ok tt {| frame := frame w;
          bytes_used := n;
          timestamp := timestamp w;
          g_running := g_running w;
          g_appsrc := g_appsrc w;
          width := width w;
          height := height w;
          timer_armed := timer_armed w;
          loop_is_running := loop_is_running w;
          sigint_installed := sigint_installed w;
          trace := trace w |}.
Definition set_timestamp (t : Z) : M unit :=
  fun w =>
    Ok tt {| frame := frame w;
          bytes_used := bytes_used w;
          timestamp := t;
          g_running := g_running w;
          g_appsrc := g_appsrc w;
          width := width w;
          height := height w;
          timer_armed := timer_armed w;
          loop_is_running := loop_is_running w;
          sigint_installed := sigint_installed w;
          trace := trace w |}.
Definition set_g_running (b : bool) : M unit :=
  fun w =>
    Ok tt {| frame := frame w;
          bytes_used := bytes_used w;
          timestamp := timestamp w;
          g_running := b;
          g_appsrc := g_appsrc w;
          width := width w;
          height := height w;
          timer_armed := timer_armed w;
          loop_is_running := loop_is_running w;
          sigint_installed := sigint_installed w;
          trace := trace w |}.
Definition set_g_appsrc (b : bool) : M unit :=
  fun w =>
    Ok tt {| frame := frame w;
          bytes_used := bytes_used w;
          timestamp := timestamp w;
          g_running := g_running w;
          g_appsrc := b;
          width := width w;
          height := height w;
          timer_armed := timer_armed w;
          loop_is_running := loop_is_running w;
          sigint_installed := sigint_installed w;
          trace := trace w |}.
Definition set_width (z : Z) : M unit :=
  fun w =>
    Ok tt {| frame := frame w;
          bytes_used := bytes_used w;
          timestamp := timestamp w;
          g_running := g_running w;
          g_appsrc := g_appsrc w;
          width := z;
          height := height w;
          timer_armed := timer_armed w;
          loop_is_running := loop_is_running w;
          sigint_installed := sigint_installed w;
          trace := trace w |}.
Definition set_height (z : Z) : M unit :=
  fun w =>
    Ok tt {| frame := frame w;
          bytes_used := bytes_used w;
          timestamp := timestamp w;
          g_running := g_running w;
          g_appsrc := g_appsrc w;
          width := width w;
          height := z;
          timer_armed := timer_armed w;
          loop_is_running := loop_is_running w;
          sigint_installed := sigint_installed w;
          trace := trace w |}.
Definition set_timer_armed (b : bool) : M unit :=
  fun w =>
    Ok tt {| frame := frame w;
          bytes_used := bytes_used w;
          timestamp := timestamp w;
          g_running := g_running w;
          g_appsrc := g_appsrc w;
          width := width w;
          height := height w;
          timer_armed := b;
          loop_is_running := loop_is_running w;
          sigint_installed := sigint_installed w;
          trace := trace w |}.
Definition set_loop_is_running (b : bool) : M unit :=
  fun w =>
    Ok tt {| frame := frame w;
          bytes_used := bytes_used w;
          timestamp := timestamp w;
          g_running := g_running w;
          g_appsrc := g_appsrc w;
          width := width w;
          height := height w;
          timer_armed := timer_armed w;
          loop_is_running := b;
          sigint_installed := sigint_installed w;
          trace := trace w |}.

Fixpoint for_each {A} (l : list A) (body : A -> M unit) : M unit :=
  match l with
  | [] => ret tt
  | x :: l' => (body x ;; for_each l' body)%m
  end.

(** ** Memory *)

Definition size_of (r : list byte) : Z := Z.of_nat (List.length r).

(** [memcpy(dst, src, n)]: the first [n] bytes of [dst] become the first
    [n] bytes of [src]; the rest of [dst] is kept. *)
Definition memcpy (dst : option (list byte)) (src : list byte) (n : Z)
  : fault + list byte :=
  match dst with
  | None => inl NullPointer
  | Some d =>
      if n >? size_of src then inl ReadOutOfBounds
      else if n >? size_of d then inl WriteOutOfBounds
      else inr (firstn (Z.to_nat n) src ++ skipn (Z.to_nat n) d)
  end.

(** [malloc(n)]: a fresh region of [n] bytes, or nullptr when the
    allocator refuses ([ok = false]).  The fresh bytes are indeterminate
    in C; every use below overwrites all of them before they are read. *)
Definition malloc (ok : bool) (n : Z) : option (list byte) :=
  if ok then Some (repeat x00 (Z.to_nat n)) else None.

(** ** [requestComplete] *)

(** The body of the loop over the planes of one buffer (source lines
    125-138). *)
Definition publish_plane (alloc_ok : bool) (p : Plane) : M unit :=
  (let bytesused := wrap32 (bytesused p) in   (* const unsigned int bytesused *)
   let size := size_of (data p) in            (* data.size(), a size_t *)
   (* bytes_used = std::min<unsigned int>(bytesused, data.size()) *)
   set_bytes_used (Z.min bytesused (wrap32 size)) ;;
   (if bytesused >? size
    then emit (EvCerrPayload bytesused size)
    else ret tt) ;;
   f <- get frame ;;
   (match f with
    | None =>
        n <- get bytes_used ;;
        emit (EvMalloc n alloc_ok) ;;
        set_frame (malloc alloc_ok n)
    | Some _ => ret tt
    end) ;;
   f <- get frame ;;
   n <- get bytes_used ;;
   match memcpy f (data p) n with
   | inl flt => crash flt
   | inr d => set_frame (Some d)
   end)%m.

Definition requestComplete (alloc_ok : bool) (request : Request) : M unit :=
  if negb (status_eqb (status request) RequestComplete) then ret tt
  else
    (for_each (buffers request)
       (fun buffer => for_each (planes buffer) (publish_plane alloc_ok)) ;;
     emit (EvReuse (cookie request)) ;;
     emit (EvQueueRequest (cookie request)))%m.

(** ** [push_frame] *)

Definition gboolean := bool.

(** [flow] is what the encoder source answers to "push-buffer" if this
    tick submits a buffer. *)
Definition push_frame (flow : GstFlowReturn) : M gboolean :=
  (f <- get frame ;;
   match f with
   | None => ret true
   | Some fr =>
       n <- get bytes_used ;;
       (* buffer = gst_buffer_new_allocate(NULL, bytes_used, NULL);
          memcpy(map.data, frame, bytes_used) *)
       match memcpy (Some (repeat x00 (Z.to_nat n))) fr n with
       | inl flt => crash flt
       | inr payload =>
           ts <- get timestamp ;;
           let duration := gst_util_uint64_scale_int 1 GST_SECOND FPS in
           set_timestamp (wrap64 (ts + duration)) ;;
           emit (EvPushBuffer
                   {| buf_data := payload; buf_pts := ts;
                      buf_duration := duration |} flow) ;;
           if flow_is_ok flow then ret true
           else (emit (EvPrintFailed (flow_code flow)) ;; ret false)
       end
   end)%m.

(** ** [sigint_handler] *)

Definition sigint_handler : M unit :=
  (set_g_running false ;;
   a <- get g_appsrc ;;
   if a then emit EvEndOfStream else ret tt)%m.

(** ** Text: [atoi], [%d], [snprintf] and the launch line *)

Local Open Scope string_scope.

Definition is_space (c : ascii) : bool :=
  let n := nat_of_ascii c in
  Nat.eqb n 32 || (Nat.leb 9 n && Nat.leb n 13).

Definition digit_of (c : ascii) : option Z :=
  let n := nat_of_ascii c in
  if Nat.leb 48 n && Nat.leb n 57 then Some (Z.of_nat n - 48) else None.

Fixpoint atoi_digits (s : string) (acc : Z) : Z :=
  match s with
  | EmptyString => acc
  | String c r =>
      match digit_of c with
      | Some d => atoi_digits r (acc * 10 + d)
      | None => acc
      end
  end.

Fixpoint skip_spaces (s : string) : string :=
  match s with
  | String c r => if is_space c then skip_spaces r else s
  | EmptyString => s
  end.

(** [atoi]: leading white space, an optional sign, then digits (overflow
    of [int] is undefined in C and is not modelled). *)
Definition atoi (s : string) : Z :=
  match skip_spaces s with
  | String "-" r => - atoi_digits r 0
  | String "+" r => atoi_digits r 0
  | r => atoi_digits r 0
  end.

(** The conversion [%d]. *)
Definition fmt_d (z : Z) : string := NilZero.string_of_int (Z.to_int z).

(** [snprintf(buf, size, ...)] keeps at most [size - 1] characters. *)
Definition snprintf (size : nat) (text : string) : string :=
  substring 0 (size - 1) text.

(** [pipeline_desc] of [main] (source lines 311-320). *)
Definition pipeline_desc (dest_ip : string) (dest_port : Z) : string :=
  snprintf 1024
    ("appsrc name=mysrc is-live=true block=true format=TIME "
     ++ "caps=video/x-raw,format=BGRx,width=800,height=600,framerate=30/1 "
     ++ "! videoconvert "
     ++ "! video/x-raw,format=I420 "
     ++ "! x264enc tune=zerolatency speed-preset=ultrafast "
     ++ "! rtph264pay config-interval=1 pt=96 "
     ++ "! udpsink host=" ++ dest_ip ++ " port=" ++ fmt_d dest_port
     ++ " auto-multicast=false").

(** How the launch line is read back: the value of a property runs from
    the first [key=] to the next blank, and a caps field from [name=] to
    the next comma. *)
Fixpoint take_until (stop : ascii) (s : string) : string :=
  match s with
  | EmptyString => EmptyString
  | String c r => if Ascii.eqb c stop then EmptyString else String c (take_until stop r)
  end.

Fixpoint drop (n : nat) (s : string) : string :=
  match n, s with
  | S n', String _ r => drop n' r
  | _, _ => s
  end.

Fixpoint find_after (key : string) (s : string) : option string :=
  if prefix key s then Some (drop (String.length key) s)
  else match s with
       | EmptyString => None
       | String _ r => find_after key r
       end.

Definition property_value (key desc : string) : option string :=
  option_map (take_until " ") (find_after (key ++ "=") desc).

Definition caps_field (name caps : string) : option string :=
  option_map (take_until ",") (find_after ("," ++ name ++ "=") caps).

Record Caps := mkCaps {
  caps_format : string;
  caps_width : Z;
  caps_height : Z;
  caps_framerate : string }.

Definition parse_caps (caps : string) : option Caps :=
  match caps_field "format" caps, caps_field "width" caps,
        caps_field "height" caps, caps_field "framerate" caps with
  | Some f, Some w, Some h, Some r =>
      Some {| caps_format := f; caps_width := atoi w;
              caps_height := atoi h; caps_framerate := r |}
  | _, _, _, _ => None
  end.

(** The caps the encoder source gets from a launch line. *)
Definition appsrc_caps (desc : string) : option Caps :=
  match property_value "caps" desc with
  | Some c => parse_caps c
  | None => None
  end.

Local Close Scope string_scope.

(** ** [main] *)

Record StreamConfiguration := mkStreamCfg {
  pixelFormat : string;
  size_width : Z;
  size_height : Z }.

Inductive ConfigStatus := Valid | Adjusted | Invalid.

(** What the camera stack, GStreamer and the command line answer during
    start-up.  [generateConfiguration] is called with the single role
    [Viewfinder], so the configuration holds one stream. *)
Record Env := mkEnv {
  argv : list string;
  cm_start : Z;                                  (* g_camManager->start() *)
  cameras : nat;                                 (* g_camManager->cameras().size() *)
  camera_found : bool;                           (* g_camManager->get(id) != nullptr *)
  acquire : Z;                                   (* g_camera->acquire() *)
  generated : option StreamConfiguration;        (* generateConfiguration(..), at(0) *)
  validate : StreamConfiguration -> ConfigStatus * StreamConfiguration;
                                                 (* config->validate(), which may adjust at(0) *)
  allocate : Z;                                  (* allocator.allocate(cfg.stream()) *)
  pool : list (bool * Z);                        (* per buffer: createRequest() != nullptr, addBuffer(..) *)
  camera_start : Z;                              (* g_camera->start() *)
  parse_launch : bool;                           (* gst_parse_launch(..) != nullptr *)
  get_by_name : bool }.                          (* gst_bin_get_by_name(..) != nullptr *)

Definition EXIT_FAILURE : Z := 1.

Local Open Scope string_scope.

Definition unref_globals : M unit :=
  (emit (EvObjectUnref "g_appsrc") ;; emit (EvObjectUnref "pipeline"))%m.

Definition config_to_string (c : StreamConfiguration) : string :=
  fmt_d (size_width c) ++ "x" ++ fmt_d (size_height c) ++ "-" ++ pixelFormat c.

(** The loop over the allocated buffers that builds the requests (source
    lines 272-283); the result is the list of requests that were built. *)
Fixpoint create_requests (i : Z) (bufs : list (bool * Z)) : M (list Z) :=
  match bufs with
  | [] => ret []
  | (created, added) :: rest =>
      (emit (EvCreateRequest i) ;;
       if negb created then
         emit (EvCerr "Failed to create request") ;; create_requests (i + 1)%Z rest
       else
         emit (EvAddBuffer i) ;;
         if (added <? 0)%Z then
           emit (EvCerr "Failed to add buffer") ;; create_requests (i + 1)%Z rest
         else
           rs <- create_requests (i + 1)%Z rest ;; ret (i :: rs))%m
  end.

(** [main] up to the call of [g_main_loop_run]: [Some code] when it
    returned [code] before, [None] when it is about to enter the loop.
    The call [std::signal(SIGINT, sigint_handler)] is commented out in the
    source, so nothing here touches [sigint_installed]. *)
Definition main_startup (env : Env) : M (option Z) :=
  (if (Z.of_nat (List.length (argv env)) <? 3)%Z then
     emit (EvCerr ("Usage: " ++ nth 0 (argv env) "" ++ " <destination-ip> <port>")) ;;
     ret (Some EXIT_FAILURE)
   else
   let dest_ip := nth 1 (argv env) "" in
   let dest_port := atoi (nth 2 (argv env) "") in
   emit EvCamManagerStart ;;
   if negb (cm_start env =? 0)%Z then
     emit (EvCerr "Failed to start CameraManager") ;;
     unref_globals ;; ret (Some EXIT_FAILURE)
   else
   if Nat.eqb (cameras env) 0 then
     emit (EvCerr "No cameras available") ;;
     emit EvCamManagerStop ;; unref_globals ;; ret (Some EXIT_FAILURE)
   else
   emit EvCameraGet ;;
   if negb (camera_found env) then
     emit (EvCerr "Failed to acquire camera") ;;
     emit EvCamManagerStop ;; unref_globals ;; ret (Some EXIT_FAILURE)
   else
   emit EvCameraAcquire ;;
   if negb (acquire env =? 0)%Z then
     emit (EvCerr "Failed to acquire camera") ;;
     emit EvCamManagerStop ;; unref_globals ;; ret (Some EXIT_FAILURE)
   else
   emit EvGenerateConfiguration ;;
   match generated env with
   | None =>
       emit (EvCerr "Failed to generate camera configuration") ;;
       emit EvCameraRelease ;; emit EvCamManagerStop ;;
       unref_globals ;; ret (Some EXIT_FAILURE)
   | Some cfg0 =>
   emit EvValidate ;;
   let (status, streamCfg) := validate env cfg0 in
   match status with
   | Invalid =>
       emit (EvCerr "Camera configuration invalid") ;;
       emit EvCameraRelease ;; emit EvCamManagerStop ;;
       unref_globals ;; ret (Some EXIT_FAILURE)
   | _ =>
   emit EvConfigure ;;
   (* Save negotiated size (in case driver chose different) *)
   set_width (wrap32 (size_width streamCfg)) ;;
   set_height (wrap32 (size_height streamCfg)) ;;
   emit (EvCout ("Default viewfinder configuration is: " ++ config_to_string streamCfg)) ;;
   (* the update of the caps of g_appsrc is commented out in the source *)
   emit EvAllocate ;;
   if (allocate env <? 0)%Z then
     emit (EvCerr "Failed to allocate buffers") ;;
     emit EvCameraRelease ;; emit EvCamManagerStop ;;
     unref_globals ;; ret (Some EXIT_FAILURE)
   else
   requests <- create_requests 0 (pool env) ;;
   emit EvConnectCallback ;;
   emit EvCameraStart ;;
   if negb (camera_start env =? 0)%Z then
     emit (EvCerr "Failed to start camera") ;;
     emit EvCameraRelease ;; emit EvCamManagerStop ;;
     unref_globals ;; ret (Some EXIT_FAILURE)
   else
   for_each requests (fun r => emit (EvQueueRequest r)) ;;
   emit (EvCout ("Streaming to " ++ dest_ip ++ ":" ++ fmt_d dest_port
                 ++ " — press Ctrl+C to stop")) ;;
   emit (EvCout ("Streaming MJPEG RTP to " ++ dest_ip ++ ":" ++ fmt_d dest_port ++ " ...")) ;;
   emit (EvCout "Press Ctrl-C to stop") ;;
   emit EvGstInit ;;
   let desc := pipeline_desc dest_ip dest_port in
   emit (EvCout ("GStreamer pipeline: " ++ desc)) ;;
   emit (EvParseLaunch desc) ;;
   if negb (parse_launch env) then
     emit (EvCerr "Failed to create pipeline") ;; ret (Some EXIT_FAILURE)
   else
   emit (EvGetByName "mysrc") ;;
   if negb (get_by_name env) then
     emit (EvCerr "Failed to get appsrc element from pipeline") ;;
     emit (EvObjectUnref "pipeline") ;; ret (Some EXIT_FAILURE)
   else
   set_g_appsrc true ;;
   emit (EvSetState true) ;;
   (* Push one frame every 1/FPS second *)
   emit (EvTimeoutAdd (1000 / FPS)%Z) ;;
   set_timer_armed true ;;
   emit EvMainLoopNew ;;
   ret None
   end end)%m.

(** The clean-up after the loop (source lines 351-367). *)
Definition main_cleanup : M Z :=
  (emit (EvCout "Stopping...") ;;
   emit EvCameraStop ;;
   emit EvAllocatorFree ;;
   emit EvCameraRelease ;;
   emit EvCamManagerStop ;;
   emit EvEndOfStream ;;
   emit (EvSetState false) ;;
   emit (EvObjectUnref "g_appsrc") ;;
   emit (EvObjectUnref "pipeline") ;;
   ret 0)%m.

Local Close Scope string_scope.

(** ** The main loop *)

(** What can happen while [main] sits in [g_main_loop_run]: the timeout
    source fires (with the answer the encoder source would give to a
    push), the camera completes a request (with the answer [malloc] would
    give), or the process receives SIGINT.  Each callback runs to its end
    before the next event is taken; the finer interleaving of the camera
    thread with the loop thread is the subject of [Interleaving] below. *)
Inductive loop_event :=
| Timeout (flow : GstFlowReturn)
| Completed (alloc_ok : bool) (request : Request)
| Sigint.

Inductive loop_exit := LoopQuit | LoopWaiting | ProcessKilled.

(** A timeout source is destroyed when its callback returns FALSE. *)
Definition dispatch_timeout (flow : GstFlowReturn) : M unit :=
  (armed <- get timer_armed ;;
   if armed then (keep <- push_frame flow ;; set_timer_armed keep)
   else ret tt)%m.

(** SIGINT runs the installed handler, or ends the process under the
    default disposition. *)
Fixpoint main_loop_iterate (evs : list loop_event) : M loop_exit :=
  (running <- get loop_is_running ;;
   if negb running then ret LoopQuit
   else
     match evs with
     | [] => ret LoopWaiting
     | Timeout flow :: evs' => dispatch_timeout flow ;; main_loop_iterate evs'
     | Completed alloc_ok request :: evs' =>
         requestComplete alloc_ok request ;; main_loop_iterate evs'
     | Sigint :: evs' =>
         installed <- get sigint_installed ;;
         if installed then (sigint_handler ;; main_loop_iterate evs')
         else ret ProcessKilled
     end)%m.

(** [g_main_loop_run] returns only once [g_main_loop_quit] has cleared
    [is_running]. *)
Definition g_main_loop_run (evs : list loop_event) : M loop_exit :=
  (emit EvMainLoopRun ;;
   set_loop_is_running true ;;
   main_loop_iterate evs)%m.

Inductive outcome := Exited (code : Z) | StillRunning | KilledBySigint.

Definition main (env : Env) (evs : list loop_event) : M outcome :=
  (r <- main_startup env ;;
   match r with
   | Some code => ret (Exited code)
   | None =>
       x <- g_main_loop_run evs ;;
       match x with
       | LoopWaiting => ret StillRunning
       | ProcessKilled => ret KilledBySigint
       | LoopQuit => code <- main_cleanup ;; ret (Exited code)
       end
   end)%m.

Definition final_world {A} (r : result A) : world :=
  match r with Ok _ w => w | Crash _ w => w end.

(** The buffers submitted to the encoder source, oldest first. *)
Fixpoint pushed (t : list event) : list GstBuffer :=
  match t with
  | [] => []
  | EvPushBuffer b _ :: t' => b :: pushed t'
  | _ :: t' => pushed t'
  end.

(** ** The two threads, one byte at a time

    [requestComplete] runs on a thread of the camera stack and
    [push_frame] on the thread of the main loop.  The source takes no
    lock around [frame] and [bytes_used], and [memcpy] promises no
    atomicity, so the two copies can overlap.  Here each thread advances
    by one assignment or one copied byte per step, and a schedule says
    which thread moves next.  Only the shared memory is followed here;
    the trace is left to the model above. *)
Module Interleaving.

Record shared := mkShared {
  sh_frame : option (list byte);
  sh_bytes_used : Z }.

(** The camera thread: planes still to be published, and the position
    inside the [memcpy(frame, data.data(), bytes_used)] in progress. *)
Inductive publisher :=
| PubIdle (pending : list Plane)
| PubCopying (src : list byte) (n i : nat) (pending : list Plane).

(** The loop thread: the payloads of the ticks already finished, and the
    position inside the [memcpy(map.data, frame, bytes_used)] in
    progress. *)
Inductive reader :=
| RdIdle (snapshots : list (list byte))
| RdCopying (n i : nat) (buf : list byte) (snapshots : list (list byte)).

Inductive thread := Camera | Loop.

Definition system : Type := shared * publisher * reader.

Fixpoint write_byte (i : nat) (b : byte) (l : list byte) : option (list byte) :=
  match i, l with
  | O, _ :: l' => Some (b :: l')
  | S i', x :: l' => option_map (cons x) (write_byte i' b l')
  | _, [] => None
  end.

(** One step of the camera thread: the assignments of source lines
    125-137 at the start of a plane, then one byte of the copy. *)
Definition publisher_step (alloc_ok : bool) (s : shared) (p : publisher)
  : option (shared * publisher) :=
  match p with
  | PubIdle [] => Some (s, p)
  | PubIdle (pl :: rest) =>
      let n := Z.min (wrap32 (bytesused pl)) (wrap32 (size_of (data pl))) in
      let fr := match sh_frame s with
                | None => malloc alloc_ok n
                | Some r => Some r
                end in
      Some ({| sh_frame := fr; sh_bytes_used := n |},
            PubCopying (data pl) (Z.to_nat n) 0 rest)
  | PubCopying src n i rest =>
      if Nat.ltb i n then
        match sh_frame s, nth_error src i with
        | Some fr, Some b =>
            match write_byte i b fr with
            | Some fr' =>
                Some ({| sh_frame := Some fr'; sh_bytes_used := sh_bytes_used s |},
                      PubCopying src n (S i) rest)
            | None => None
            end
        | _, _ => None
        end
      else Some (s, PubIdle rest)
  end.

(** One step of the loop thread: the test of [frame] and the read of
    [bytes_used] at the start of a tick, then one byte of the copy. *)
Definition reader_step (s : shared) (r : reader) : option reader :=
  match r with
  | RdIdle snaps =>
      match sh_frame s with
      | None => Some (RdIdle snaps)
      | Some _ => Some (RdCopying (Z.to_nat (sh_bytes_used s)) 0 [] snaps)
      end
  | RdCopying n i buf snaps =>
      if Nat.ltb i n then
        match sh_frame s with
        | Some fr =>
            match nth_error fr i with
            | Some b => Some (RdCopying n (S i) (buf ++ [b]) snaps)
            | None => None
            end
        | None => None
        end
      else Some (RdIdle (snaps ++ [buf]))
  end.

Definition step (alloc_ok : bool) (t : thread) (st : system) : option system :=
  let '(s, p, r) := st in
  match t with
  | Camera =>
      match publisher_step alloc_ok s p with
      | Some (s', p') => Some (s', p', r)
      | None => None
      end
  | Loop =>
      match reader_step s r with
      | Some r' => Some (s, p, r')
      | None => None
      end
  end.

Fixpoint run (alloc_ok : bool) (sched : list thread) (st : system) : option system :=
  match sched with
  | [] => Some st
  | t :: sched' =>
      match step alloc_ok t st with
      | Some st' => run alloc_ok sched' st'
      | None => None
      end
  end.

Definition snapshots_of (st : system) : list (list byte) :=
  match snd st with
  | RdIdle snaps => snaps
  | RdCopying _ _ _ snaps => snaps
  end.

(** The steps one thread needs for a whole copy of [n] bytes when nothing
    else runs in between: the start, [n] bytes, the end. *)
Definition uninterrupted (t : thread) (n : nat) : list thread :=
  t :: repeat t n ++ [t].

(** Two publications of two bytes each. *)
Definition publication_1 : Plane := {| bytesused := 2; data := [x01; x01] |}.
Definition publication_2 : Plane := {| bytesused := 2; data := [x02; x02] |}.

(** The first publication runs alone; the tick then starts after the
    second publication has copied one byte and ends before it copies the
    other. *)
Definition overlapping_schedule : list thread :=
  uninterrupted Camera 2
  ++ [Camera; Camera] ++ uninterrupted Loop 2 ++ [Camera; Camera].

Definition start_of_day : system :=
  ({| sh_frame := None; sh_bytes_used := 0 |},
   PubIdle [publication_1; publication_2], RdIdle []).

(** The first publication has set [bytes_used] and allocated the region
    (source lines 127-134) but has copied no byte yet when a whole tick
    runs. *)
Definition early_tick_schedule : list thread :=
  [Camera] ++ uninterrupted Loop 2.

End Interleaving.

(** ** Predicates used in the statements *)

(** A triple with a normal and a crash postcondition. *)
Definition hoare {A} (P : world -> Prop) (m : M A)
    (Q : A -> world -> Prop) (E : world -> Prop) : Prop :=
  forall w, P w ->
    match m w with
    | Ok a w' => Q a w'
    | Crash _ w' => E w'
    end.

(** [I] is kept by every normal end of a computation, and a crash from a
    state with [I] leaves a state with [E]. *)
Definition keeps {A} (I E : world -> Prop) (m : M A) : Prop :=
  hoare I m (fun _ => I) E.

(** The [k]-th buffer is stamped [k * (10^9 / FPS)], and the clock is one
    duration past the last stamp. *)
Definition pts_inv (w : world) : Prop :=
  let bufs := pushed (trace w) in
  map buf_pts bufs
  = map (fun k => wrap64 (Z.of_nat k * (GST_SECOND / FPS))) (seq 0 (List.length bufs))
  /\ timestamp w = wrap64 (Z.of_nat (List.length bufs) * (GST_SECOND / FPS)).

(** [bytes_used] never exceeds the size of the region behind [frame]. *)
Definition store_ok (w : world) : Prop :=
  0 <= bytes_used w /\
  forall fr, frame w = Some fr -> bytes_used w <= size_of fr.

(** The calls of [malloc] in a trace. *)
Fixpoint mallocs (t : list event) : list (Z * bool) :=
  match t with
  | [] => []
  | EvMalloc n ok :: t' => (n, ok) :: mallocs t'
  | _ :: t' => mallocs t'
  end.

(** [frame] is non-null exactly when the one successful [malloc] has
    happened. *)
Definition alloc_inv (w : world) : Prop :=
  match frame w with
  | None => mallocs (trace w) = []
  | Some fr => mallocs (trace w) = [(size_of fr, true)]
  end.

Definition at_most_one_malloc (w : world) : Prop :=
  (List.length (mallocs (trace w)) <= 1)%nat.

(** The calls that only the clean-up after the loop and the interrupt
    handler make. *)
Definition is_teardown (e : event) : bool :=
  match e with
  | EvCameraStop | EvAllocatorFree | EvEndOfStream | EvSetState false => true
  | _ => false
  end.

Definition is_loop_entry (e : event) : bool :=
  match e with EvMainLoopRun => true | _ => false end.

Definition no_teardown (t : list event) : Prop :=
  forallb (fun e => negb (is_teardown e)) t = true.

Definition not_in_loop (t : list event) : Prop :=
  forallb (fun e => negb (is_loop_entry e)) t = true.

Fixpoint count_eos (t : list event) : nat :=
  match t with
  | [] => O
  | EvEndOfStream :: t' => S (count_eos t')
  | _ :: t' => count_eos t'
  end.

(** What holds when [main] is about to enter the loop ... *)
Definition startup_inv (w : world) : Prop :=
  sigint_installed w = false /\
  no_teardown (trace w) /\ not_in_loop (trace w).

(** ... and while it sits in the loop. *)
Definition loop_inv (w : world) : Prop :=
  loop_is_running w = true /\
  sigint_installed w = false /\ no_teardown (trace w).

(** The caps written into the launch line. *)
Definition launch_caps : Caps :=
  {| caps_format := "BGRx"; caps_width := 800; caps_height := 600;
     caps_framerate := "30/1" |}.

Definition launches (t : list event) : list string :=
  flat_map (fun e => match e with EvParseLaunch d => [d] | _ => [] end) t.

(** Every launch line in the trace gives the encoder source the caps
    written in the source text. *)
Definition caps_inv (w : world) : Prop :=
  forall desc, In desc (launches (trace w)) -> appsrc_caps desc = Some launch_caps.

(** The clamped byte count of a plane, as [publish_plane] computes it. *)
Definition clamped (p : Plane) : Z :=
  Z.min (wrap32 (bytesused p)) (wrap32 (size_of (data p))).

Definition has_payload_diagnostic (t : list event) : bool :=
  existsb (fun e => match e with EvCerrPayload _ _ => true | _ => false end) t.

(** What [publish_plane] writes on std::cerr for a plane. *)
Definition payload_diagnostic (p : Plane) : list event :=
  if wrap32 (bytesused p) >? size_of (data p)
  then [EvCerrPayload (wrap32 (bytesused p)) (size_of (data p))]
  else [].

(** The region behind [frame] when the copy of [publish_plane] starts. *)
Definition region_for (alloc_ok : bool) (p : Plane) (w : world) : option (list byte) :=
  match frame w with
  | None => malloc alloc_ok (clamped p)
  | Some fr => Some fr
  end.

(** ** Sample inputs *)

Definition sample_env : Env :=
  {| argv := ["udp_cam_libcamera_gst"; "192.168.1.50"; "5000"]%string;
     cm_start := 0; cameras := 1; camera_found := true; acquire := 0;
     generated := Some (mkStreamCfg "XRGB8888" 800 600);
     validate := fun c => (Valid, c);
     allocate := 0; pool := [(true, 0); (true, 0); (true, 0); (true, 0)];
     camera_start := 0; parse_launch := true; get_by_name := true |}.

(** The driver adjusts the size to 640x480. *)
Definition adjusting_env : Env :=
  {| argv := ["udp_cam_libcamera_gst"; "192.168.1.50"; "5000"]%string;
     cm_start := 0; cameras := 1; camera_found := true; acquire := 0;
     generated := Some (mkStreamCfg "XRGB8888" 800 600);
     validate := fun c => (Adjusted, mkStreamCfg (pixelFormat c) 640 480);
     allocate := 0; pool := [(true, 0); (true, 0); (true, 0); (true, 0)];
     camera_start := 0; parse_launch := true; get_by_name := true |}.

Definition sample_plane : Plane :=
  {| bytesused := 4; data := [x10; x20; x30; x40] |}.

Definition oversized_plane : Plane :=
  {| bytesused := 20; data := [x10; x20; x30; x40] |}.

Definition sample_request : Request :=
  {| cookie := 0; status := RequestComplete;
     buffers := [ {| planes := [sample_plane] |} ] |}.

Definition cancelled_request : Request :=
  {| cookie := 7; status := RequestCancelled;
     buffers := [ {| planes := [sample_plane] |} ] |}.

(** One frame is published, then the timer fires three times. *)
Definition sample_events : list loop_event :=
  [Completed true sample_request;
   Timeout GST_FLOW_OK; Timeout GST_FLOW_OK; Timeout GST_FLOW_OK].

(** One frame is published; the timer fires three times and the third
    push is refused; the timer would fire once more. *)
Definition refused_push_events : list loop_event :=
  [Completed true sample_request;
   Timeout GST_FLOW_OK; Timeout GST_FLOW_OK; Timeout GST_FLOW_ERROR;
   Timeout GST_FLOW_OK].

(** The state of the process after start-up and one completed request. *)
Definition first_frame_world : world :=
  final_world (main sample_env [Completed true sample_request] initial_world).

(** A frame is published, the timer fires twice, the operator presses
    Ctrl-C, and the timer would fire once more. *)
Definition interrupted_events : list loop_event :=
  [Completed true sample_request;
   Timeout GST_FLOW_OK; Timeout GST_FLOW_OK; Sigint; Timeout GST_FLOW_OK].

Definition interrupted_world : world :=
  final_world (main sample_env interrupted_events initial_world).

(** A world in which one four-byte frame has been published. *)
Definition streaming_world : world :=
  {| frame := Some [x10; x20; x30; x40];
     bytes_used := 4;
     timestamp := 0;
     g_running := true;
     g_appsrc := true;
     width := 800;
     height := 600;
     timer_armed := true;
     loop_is_running := true;
     sigint_installed := false;
     trace := [] |}.

(** ** [XRGB8888toRGB] *)

Definition INT_MAX : Z := 2 ^ 31 - 1.
Definition INT_MIN : Z := - 2 ^ 31.

(** The values an [int] holds. *)
Definition in_int (z : Z) : bool := (INT_MIN <=? z) && (z <=? INT_MAX).

(** What C leaves undefined in this function. *)
Inductive undefined :=
| SignedOverflow        (* an [int] product outside the range of [int] *)
| PointerOutOfRange     (* [src + offset] or [dst + offset] outside its region *)
| Access (f : fault).   (* a read or a write outside its region *)

(** A pointer may point into its region or just past the end of it. *)
Definition in_region (offset : Z) (m : list byte) : bool :=
  (0 <=? offset) && (offset <=? size_of m).

(** One assignment [d[j] = s[i]] through the two pointers. *)
Definition copy_byte (src : list byte) (i : nat) (dst : list byte) (j : nat)
  : fault + list byte :=
  match nth_error src i with
  | None => inl ReadOutOfBounds
  | Some b =>
      match Interleaving.write_byte j b dst with
      | None => inl WriteOutOfBounds
      | Some dst' => inr dst'
      end
  end.

(** The inner loop over [x] (source lines 69-75): [n] pixels are left, [s]
    and [d] are the offsets of the two running pointers.  After a pixel
    whose three copies succeeded, [s + 4] and [d + 3] are at most one past
    the end of their regions. *)
Fixpoint convert_pixels (n s d : nat) (src dst : list byte) : fault + list byte :=
  match n with
  | O => inr dst
  | S n' =>
      match copy_byte src (s + 1) dst d with            (* d[0] = s[1] *)
      | inl f => inl f
      | inr dst1 =>
          match copy_byte src (s + 2) dst1 (d + 1) with (* d[1] = s[2] *)
          | inl f => inl f
          | inr dst2 =>
              match copy_byte src (s + 3) dst2 (d + 2) with (* d[2] = s[3] *)
              | inl f => inl f
              | inr dst3 => convert_pixels n' (s + 4) (d + 3) src dst3
              end
          end
      end
  end.

(** The outer loop over [y] (source lines 66-76): [rows] rows are left.
    The products [y * srcStride] and [y * dstStride] are products of
    [int], and the two row pointers are formed from them. *)
Fixpoint convert_rows (rows : nat) (y srcStride dstStride : Z) (w : nat)
    (src dst : list byte) : undefined + list byte :=
  match rows with
  | O => inr dst
  | S rows' =>
      let s := y * srcStride in
      let d := y * dstStride in
      if negb (in_int s && in_int d) then inl SignedOverflow
      else if negb (in_region s src && in_region d dst) then inl PointerOutOfRange
      else
        match convert_pixels w (Z.to_nat s) (Z.to_nat d) src dst with
        | inl f => inl (Access f)
        | inr dst' => convert_rows rows' (y + 1) srcStride dstStride w src dst'
        end
  end.

(** [XRGB8888toRGB(src, dst, width, height)] for [int] values [width] and
    [height], with [src] and [dst] at the start of two regions that do
    not overlap; the result is the region behind [dst] after the call.  A
    loop whose bound is not positive does not run. *)
Definition XRGB8888toRGB (src dst : list byte) (width height : Z)
  : undefined + list byte :=
  let srcStride := width * 4 in
  let dstStride := width * 3 in
  if negb (in_int srcStride && in_int dstStride) then inl SignedOverflow
  else
    convert_rows (Z.to_nat height) 0 srcStride dstStride (Z.to_nat width) src dst.

(** Every fourth byte, starting with the first, left out. *)
Fixpoint drop_first_of_four (l : list byte) : list byte :=
  match l with
  | _ :: r :: g :: b :: rest => r :: g :: b :: drop_first_of_four rest
  | _ => []
  end.

Definition xrgb_sample : list byte := [x00; x11; x22; x33; x00; x44; x55; x66].

(** ** Views of a request and of a trace *)

(** The planes of a request in the order the two loops of
    [requestComplete] visit them. *)
Definition all_planes (request : Request) : list Plane :=
  flat_map planes (buffers request).

(** The answers of the encoder source to the pushes in a trace. *)
Fixpoint flows (t : list event) : list GstFlowReturn :=
  match t with
  | [] => []
  | EvPushBuffer _ r :: t' => r :: flows t'
  | _ :: t' => flows t'
  end.

(** The buffers of the pushes that the encoder source answered with
    GST_FLOW_OK. *)
Fixpoint successful (t : list event) : list GstBuffer :=
  match t with
  | [] => []
  | EvPushBuffer b GST_FLOW_OK :: t' => b :: successful t'
  | _ :: t' => successful t'
  end.

(** The requests handed back to the camera in a trace. *)
Fixpoint requeues (t : list event) : list Z :=
  match t with
  | [] => []
  | EvQueueRequest c :: t' => c :: requeues t'
  | _ :: t' => requeues t'
  end.

(** A two-plane request whose second plane is the smaller one. *)
Definition two_plane_request : Request :=
  {| cookie := 3; status := RequestComplete;
     buffers := [ {| planes := [ sample_plane;
                                 {| bytesused := 2; data := [x51; x52] |} ] |} ] |}.

(** A plane larger than the four bytes of [sample_plane]. *)
Definition larger_plane : Plane :=
  {| bytesused := 6; data := [x61; x62; x63; x64; x65; x66] |}.

(** The part of the state that belongs to the pump. *)
Definition pump_is (ts : Z) (armed : bool) (bufs : list GstBuffer)
    (fl : list GstFlowReturn) (w : world) : Prop :=
  timestamp w = ts /\ timer_armed w = armed /\
  pushed (trace w) = bufs /\ flows (trace w) = fl.

(** Every push but the last was answered OK, and all of them were while
    the timer is still attached. *)
Definition answered_ok (l : list GstFlowReturn) : Prop :=
  Forall (fun r => r = GST_FLOW_OK) l.

Definition one_failure_at_most (w : world) : Prop :=
  (timer_armed w = true -> answered_ok (flows (trace w))) /\
  answered_ok (removelast (flows (trace w))).

(** A world whose timer a failed push has removed. *)
Definition stopped_pump_world : world :=
  final_world (dispatch_timeout GST_FLOW_ERROR streaming_world).

(** ** Views of the start-up *)

(** The answers under which [main] gets as far as the main loop. *)
Definition startup_ok (env : Env) : bool :=
  negb (Z.of_nat (List.length (argv env)) <? 3)
  && (cm_start env =? 0)
  && negb (Nat.eqb (cameras env) 0)
  && camera_found env
  && (acquire env =? 0)
  && match generated env with
     | None => false
     | Some cfg0 =>
         match fst (validate env cfg0) with Invalid => false | _ => true end
     end
  && negb (allocate env <? 0)
  && (camera_start env =? 0)
  && parse_launch env
  && get_by_name env.

(** The answers under which [main] gets as far as a running camera. *)
Definition camera_started (env : Env) : bool :=
  negb (Z.of_nat (List.length (argv env)) <? 3)
  && (cm_start env =? 0)
  && negb (Nat.eqb (cameras env) 0)
  && camera_found env
  && (acquire env =? 0)
  && match generated env with
     | None => false
     | Some cfg0 =>
         match fst (validate env cfg0) with Invalid => false | _ => true end
     end
  && negb (allocate env <? 0)
  && (camera_start env =? 0).

(** The calls that give the camera back. *)
Definition is_camera_release (e : event) : bool :=
  match e with
  | EvCameraStop | EvCameraRelease | EvCamManagerStop => true
  | _ => false
  end.

(** The calls that start the stream. *)
Definition is_streaming (e : event) : bool :=
  match e with
  | EvSetState true | EvMainLoopRun | EvTimeoutAdd _ => true
  | _ => false
  end.

(** Nothing streams yet.  (Whether a frame has been published by then is
    left open: the camera runs from source line 289 on.) *)
Definition idle (w : world) : Prop :=
  timer_armed w = false /\ g_appsrc w = false /\
  pushed (trace w) = [] /\
  forallb (fun e => negb (is_streaming e)) (trace w) = true.

(** The characters of a numeric address or of a host name: digits,
    letters, the dot, the hyphen and the colon.  None of them is white
    space, a quote or a backslash, so a launch line takes a value made
    of them as it stands. *)
Definition is_host_char (c : ascii) : bool :=
  let n := nat_of_ascii c in
  ((48 <=? n) && (n <=? 57) || (65 <=? n) && (n <=? 90)
   || (97 <=? n) && (n <=? 122)
   || (n =? 46) || (n =? 45) || (n =? 58))%nat.

Fixpoint all_host_chars (s : string) : bool :=
  match s with
  | EmptyString => true
  | String c r => is_host_char c && all_host_chars r
  end.

(** The camera works, but the launch line is refused. *)
Definition no_pipeline_env : Env :=
  {| argv := ["udp_cam_libcamera_gst"; "192.168.1.50"; "5000"]%string;
     cm_start := 0; cameras := 1; camera_found := true; acquire := 0;
     generated := Some (mkStreamCfg "XRGB8888" 800 600);
     validate := fun c => (Valid, c);
     allocate := 0; pool := [(true, 0); (false, 0); (true, -1)];
     camera_start := 0; parse_launch := false; get_by_name := true |}.

(** No camera is attached. *)
Definition no_camera_env : Env :=
  {| argv := ["udp_cam_libcamera_gst"; "192.168.1.50"; "5000"]%string;
     cm_start := 0; cameras := 0; camera_found := true; acquire := 0;
     generated := Some (mkStreamCfg "XRGB8888" 800 600);
     validate := fun c => (Valid, c);
     allocate := 0; pool := [];
     camera_start := 0; parse_launch := true; get_by_name := true |}.

(** * Proofs *)

(** ** Rules for triples *)

Section Rules.
Context {A B : Type}.
Variables (P : world -> Prop) (E : world -> Prop).

Lemma hoare_bind (m : M A) (k : A -> M B) Q R :
  hoare P m Q E -> (forall a, hoare (Q a) (k a) R E) ->
  hoare P (bind m k) R E.
Proof.
  intros Hm Hk w Hw. unfold bind. specialize (Hm w Hw).
  destruct (m w) as [a w'|f w']; [apply (Hk a w' Hm) | exact Hm].
Qed.

Lemma hoare_ret (a : A) (Q : A -> world -> Prop) :
  (forall w, P w -> Q a w) -> hoare P (ret a) Q E.
Proof. intros H w Hw. simpl. auto. Qed.

Lemma hoare_get (proj : world -> A) (Q : A -> world -> Prop) :
  (forall w, P w -> Q (proj w) w) -> hoare P (get proj) Q E.
Proof. intros H w Hw. simpl. auto. Qed.
End Rules.

Section Keeps.
Variables I E : world -> Prop.

Lemma keeps_bind {A B} (m : M A) (k : A -> M B) :
  keeps I E m -> (forall a, keeps I E (k a)) -> keeps I E (bind m k).
Proof. intros Hm Hk. eapply hoare_bind; [exact Hm | exact Hk]. Qed.

Lemma keeps_ret {A} (a : A) : keeps I E (ret a).
Proof. intros w Hw. exact Hw. Qed.

Lemma keeps_get {A} (proj : world -> A) : keeps I E (get proj).
Proof. intros w Hw. exact Hw. Qed.

Lemma keeps_crash {A} (f : fault) :
  (forall w, I w -> E w) -> keeps I E (@crash A f).
Proof. intros HIE w Hw. apply HIE. exact Hw. Qed.

Lemma keeps_for_each {A} (l : list A) (body : A -> M unit) :
  (forall x, keeps I E (body x)) -> keeps I E (for_each l body).
Proof.
  intros Hb. induction l as [|x l IH]; simpl.
  - apply keeps_ret.
  - apply keeps_bind; [apply Hb | intros _; exact IH].
Qed.
End Keeps.

(** Walks through straight-line monadic code; [prim] closes the goals
    about single writes and emitted events. *)
Ltac keeps_walk prim :=
  repeat (cbv beta;
    match goal with
    | |- keeps _ _ (ret _) => apply keeps_ret
    | |- keeps _ _ (get _) => apply keeps_get
    | |- keeps _ _ (crash _) => apply keeps_crash; solve [ prim ]
    | |- keeps _ _ (bind _ _) => apply keeps_bind; [ | intros ]
    | |- keeps _ _ (for_each _ _) => apply keeps_for_each; intros
    | |- keeps _ _ (if ?c then _ else _) => destruct c
    | |- keeps _ _ (match ?c with _ => _ end) => destruct c
    | |- keeps _ _ _ => solve [ prim ]
    end).

Lemma pushed_app (t1 t2 : list event) :
  pushed (t1 ++ t2) = pushed t1 ++ pushed t2.
Proof.
  induction t1 as [|e t1 IH]; simpl; [reflexivity|].
  destruct e; simpl; rewrite ?IH; reflexivity.
Qed.

Lemma mallocs_app (t1 t2 : list event) :
  mallocs (t1 ++ t2) = mallocs t1 ++ mallocs t2.
Proof.
  induction t1 as [|e t1 IH]; simpl; [reflexivity|].
  destruct e; simpl; rewrite ?IH; reflexivity.
Qed.

Lemma count_eos_app (t1 t2 : list event) :
  count_eos (t1 ++ t2) = (count_eos t1 + count_eos t2)%nat.
Proof.
  induction t1 as [|e t1 IH]; simpl; [reflexivity|].
  destruct e; simpl; rewrite ?IH; reflexivity.
Qed.

Lemma frame_duration_value :
  gst_util_uint64_scale_int 1 GST_SECOND FPS = GST_SECOND / FPS.
Proof. reflexivity. Qed.

(** ** The presentation clock in one tick *)

Lemma pts_emit e : pushed [e] = [] -> keeps pts_inv pts_inv (emit e).
Proof.
  intros He w H. unfold pts_inv in *. cbn [emit trace timestamp].
  rewrite pushed_app, He, app_nil_r. exact H.
Qed.

Ltac pts_prim :=
  first [ apply pts_emit; reflexivity
        | let w := fresh "w" in let H := fresh "H" in intros w H; exact H ].

Lemma push_frame_keeps_pts (flow : GstFlowReturn) : keeps pts_inv pts_inv (push_frame flow).
Proof.
  intros w [Hp Ht]. unfold push_frame, bind, get.
  destruct (frame w) as [fr|] eqn:Hf; [|split; assumption].
  destruct (memcpy _ fr (bytes_used w)) as [flt|payload]; [split; assumption|].
  assert (Hstep : forall tl,
            pushed tl = [] ->
            pts_inv {| frame := frame w; bytes_used := bytes_used w;
                       timestamp := wrap64 (timestamp w + gst_util_uint64_scale_int 1 GST_SECOND FPS);
                       g_running := g_running w; g_appsrc := g_appsrc w;
                       width := width w; height := height w;
                       timer_armed := timer_armed w;
                       loop_is_running := loop_is_running w;
                       sigint_installed := sigint_installed w;
                       trace := (trace w ++ [EvPushBuffer
                                  {| buf_data := payload; buf_pts := timestamp w;
                                     buf_duration := gst_util_uint64_scale_int 1 GST_SECOND FPS |}
                                  flow]) ++ tl |}).
  { intros tl Htl. unfold pts_inv. cbn [trace timestamp].
    rewrite !pushed_app, Htl, app_nil_r. cbn [pushed].
    rewrite length_app. cbn [List.length]. rewrite Nat.add_1_r.
    rewrite seq_S, !map_app. cbn [map buf_pts Nat.add].
    rewrite frame_duration_value. split.
    - rewrite Hp, Ht. reflexivity.
    - rewrite Ht. unfold wrap64. rewrite Zplus_mod_idemp_l. f_equal. lia. }
  cbn. destruct (flow_is_ok flow); cbn.
  - specialize (Hstep [] eq_refl). rewrite app_nil_r in Hstep. exact Hstep.
  - apply (Hstep [EvPrintFailed (flow_code flow)]). reflexivity.
Qed.

(** ** Invariants of whole runs

    An invariant that no start-up call disturbs is kept by
    [main_startup]; one that in addition survives the two callbacks is
    kept by [main]. *)

Section StartupKeeps.
Variables I E : world -> Prop.
Hypothesis emit_keeps :
  forall e, pushed [e] = [] -> mallocs [e] = [] -> launches [e] = [] ->
            is_teardown e = false -> is_loop_entry e = false ->
            keeps I E (emit e).
Hypothesis launch_keeps :
  forall ip port, keeps I E (emit (EvParseLaunch (pipeline_desc ip port))).
Hypothesis set_width_keeps : forall z, keeps I E (set_width z).
Hypothesis set_height_keeps : forall z, keeps I E (set_height z).
Hypothesis set_g_appsrc_keeps : forall b, keeps I E (set_g_appsrc b).
Hypothesis set_timer_armed_keeps : forall b, keeps I E (set_timer_armed b).

Lemma create_requests_keeps bufs : forall i, keeps I E (create_requests i bufs).
Proof.
  induction bufs as [|[created added] rest IH]; intros i; simpl.
  - apply keeps_ret.
  - keeps_walk ltac:(first [apply emit_keeps; reflexivity | apply IH]).
Qed.

Lemma main_startup_keeps env : keeps I E (main_startup env).
Proof.
  unfold main_startup, unref_globals.
  keeps_walk ltac:(first
    [ apply create_requests_keeps
    | apply emit_keeps; reflexivity
    | apply launch_keeps
    | apply set_width_keeps | apply set_height_keeps
    | apply set_g_appsrc_keeps | apply set_timer_armed_keeps ]).
Qed.
End StartupKeeps.

Section CallbackKeeps.
Variables I E : world -> Prop.
Hypothesis emit_keeps :
  forall e, pushed [e] = [] -> mallocs [e] = [] -> launches [e] = [] ->
            is_teardown e = false -> is_loop_entry e = false ->
            keeps I E (emit e).
Hypothesis set_timer_armed_keeps : forall b, keeps I E (set_timer_armed b).
Hypothesis publish_plane_keeps : forall ok p, keeps I E (publish_plane ok p).
Hypothesis push_frame_keeps : forall flow, keeps I E (push_frame flow).

Lemma requestComplete_keeps ok r : keeps I E (requestComplete ok r).
Proof.
  unfold requestComplete.
  keeps_walk ltac:(first [apply publish_plane_keeps | apply emit_keeps; reflexivity]).
Qed.

Lemma dispatch_timeout_keeps flow : keeps I E (dispatch_timeout flow).
Proof.
  unfold dispatch_timeout.
  keeps_walk ltac:(first [apply push_frame_keeps | apply set_timer_armed_keeps]).
Qed.
End CallbackKeeps.

Section MainKeeps.
Variables I E : world -> Prop.
Hypothesis crash_ok : forall w, I w -> E w.
Hypothesis emit_keeps :
  forall e, pushed [e] = [] -> mallocs [e] = [] -> launches [e] = [] ->
            keeps I E (emit e).
Hypothesis launch_keeps :
  forall ip port, keeps I E (emit (EvParseLaunch (pipeline_desc ip port))).
Hypothesis set_width_keeps : forall z, keeps I E (set_width z).
Hypothesis set_height_keeps : forall z, keeps I E (set_height z).
Hypothesis set_g_appsrc_keeps : forall b, keeps I E (set_g_appsrc b).
Hypothesis set_g_running_keeps : forall b, keeps I E (set_g_running b).
Hypothesis set_timer_armed_keeps : forall b, keeps I E (set_timer_armed b).
Hypothesis set_loop_is_running_keeps : forall b, keeps I E (set_loop_is_running b).
Hypothesis publish_plane_keeps : forall ok p, keeps I E (publish_plane ok p).
Hypothesis push_frame_keeps : forall flow, keeps I E (push_frame flow).

Lemma sigint_handler_keeps : keeps I E sigint_handler.
Proof.
  unfold sigint_handler.
  keeps_walk ltac:(first [apply set_g_running_keeps | apply emit_keeps; reflexivity]).
Qed.

Lemma main_loop_iterate_keeps evs : keeps I E (main_loop_iterate evs).
Proof.
  induction evs as [|e evs IH]; simpl.
  - keeps_walk idtac.
  - apply keeps_bind; [apply keeps_get | intros running].
    destruct (negb running); [apply keeps_ret|].
    destruct e as [flow|ok r|].
    + apply keeps_bind; [apply dispatch_timeout_keeps; auto | intros _; exact IH].
    + apply keeps_bind; [apply requestComplete_keeps; auto | intros _; exact IH].
    + apply keeps_bind; [apply keeps_get | intros inst].
      destruct inst; [|apply keeps_ret].
      apply keeps_bind; [apply sigint_handler_keeps | intros _; exact IH].
Qed.

Lemma main_keeps env evs : keeps I E (main env evs).
Proof.
  unfold main, main_cleanup, g_main_loop_run.
  keeps_walk ltac:(first
    [ apply main_startup_keeps; solve [auto]
    | apply main_loop_iterate_keeps
    | apply emit_keeps; reflexivity
    | apply set_loop_is_running_keeps ]).
Qed.

(** The invariant holds wherever a run of [main] ends, and [E] where it
    crashes. *)
Lemma main_final env evs :
  I initial_world ->
  match main env evs initial_world with
  | Ok _ w => I w
  | Crash _ w => E w
  end.
Proof. intros H0. exact (main_keeps env evs initial_world H0). Qed.
End MainKeeps.

(** ** The presentation clock across a run *)

Lemma publish_plane_keeps_pts ok p : keeps pts_inv pts_inv (publish_plane ok p).
Proof. unfold publish_plane. keeps_walk pts_prim. Qed.

Lemma main_keeps_pts env evs : keeps pts_inv pts_inv (main env evs).
Proof.
  apply main_keeps; intros;
    first [ assumption
          | apply pts_emit; first [assumption | reflexivity]
          | apply publish_plane_keeps_pts
          | apply push_frame_keeps_pts
          | pts_prim ].
Qed.

Lemma pts_inv_initial : pts_inv initial_world.
Proof. split; reflexivity. Qed.

Lemma stamps_nth (l : list GstBuffer) (f : nat -> Z) (n : nat) :
  map buf_pts l = map f (seq 0 n) ->
  forall k b, nth_error l k = Some b -> buf_pts b = f k /\ (k < n)%nat.
Proof.
  intros Hm k b Hk.
  assert (Hn : List.length l = n).
  { rewrite <- (length_map buf_pts l), Hm, length_map, length_seq. reflexivity. }
  assert (Hlt : (k < n)%nat).
  { rewrite <- Hn. apply nth_error_Some. rewrite Hk. discriminate. }
  split; [|exact Hlt].
  assert (H1 : nth_error (map buf_pts l) k = Some (buf_pts b)).
  { rewrite nth_error_map, Hk. reflexivity. }
  rewrite Hm, nth_error_map, nth_error_seq in H1.
  destruct (Nat.ltb_spec k n) as [_|Hge]; [|lia].
  simpl in H1. congruence.
Qed.

(** ** One tick of the pump *)

Lemma memcpy_into_fresh (fr : list byte) (n : Z) :
  n <= size_of fr ->
  memcpy (Some (repeat x00 (Z.to_nat n))) fr n = inr (firstn (Z.to_nat n) fr).
Proof.
  intros Hn. unfold memcpy, size_of in *. rewrite repeat_length.
  destruct (Z.gtb_spec n (Z.of_nat (List.length fr))) as [Hgt|_]; [lia|].
  destruct (Z.gtb_spec n (Z.of_nat (Z.to_nat n))) as [Hgt|_]; [lia|].
  rewrite skipn_all2 by (rewrite repeat_length; lia).
  rewrite app_nil_r. reflexivity.
Qed.

Lemma firstn_size (fr : list byte) (n : Z) :
  0 <= n <= size_of fr -> size_of (firstn (Z.to_nat n) fr) = n.
Proof.
  intros Hn. unfold size_of in *. rewrite length_firstn. lia.
Qed.

(** What a tick does once [frame] is non-null. *)
Lemma push_frame_with_frame (w : world) (fr : list byte) (flow : GstFlowReturn) :
  frame w = Some fr -> bytes_used w <= size_of fr ->
  exists w',
    push_frame flow w = Ok (flow_is_ok flow) w' /\
    frame w' = frame w /\ bytes_used w' = bytes_used w /\
    timer_armed w' = timer_armed w /\
    timestamp w' = wrap64 (timestamp w + GST_SECOND / FPS) /\
    trace w' =
      trace w ++
      EvPushBuffer {| buf_data := firstn (Z.to_nat (bytes_used w)) fr;
                      buf_pts := timestamp w;
                      buf_duration := GST_SECOND / FPS |} flow
      :: (if flow_is_ok flow then [] else [EvPrintFailed (flow_code flow)]).
Proof.
  intros Hf Hn. unfold push_frame, bind, get. rewrite Hf.
  rewrite (memcpy_into_fresh fr (bytes_used w) Hn).
  cbn [set_timestamp emit]. rewrite frame_duration_value.
  destruct (flow_is_ok flow); cbn [ret emit bind].
  - eexists; split; [reflexivity|]. cbn.
    repeat split; first [reflexivity | exact Hf].
  - eexists; split; [reflexivity|]. cbn. rewrite <- app_assoc.
    repeat split; first [reflexivity | exact Hf].
Qed.

(** C2 as stated fails: in this run a frame is published, the first push is
    answered [GST_FLOW_ERROR] (neither Flushing nor EOS), and the timer
    fires once more.  The failed tick has advanced the clock from 0 to
    33333333 and has removed the timer, so the later tick submits
    nothing. *)
Lemma transient_failure_counterexample :
  let w := final_world
             (main sample_env
                [Completed true sample_request;
                 Timeout GST_FLOW_ERROR; Timeout GST_FLOW_OK] initial_world) in
  timestamp w = 33333333 /\
  timer_armed w = false /\
  map buf_pts (pushed (trace w)) = [0].
Proof. vm_compute. repeat split; reflexivity. Qed.

(** C2, amended.  When the encoder source answers a push with any status
    other than OK (Flushing and EOS included), the failure is printed, the
    clock has already been advanced by [10^9 / FPS], and the callback
    returns FALSE: the timer is removed and every later timeout leaves the
    process state as it is. *)
Theorem failed_push_stops_pump :
  forall (w : world) (fr : list byte) (flow : GstFlowReturn),
    frame w = Some fr -> bytes_used w <= size_of fr ->
    timer_armed w = true -> flow <> GST_FLOW_OK ->
    exists w' b,
      dispatch_timeout flow w = Ok tt w' /\
      trace w' = trace w ++ [EvPushBuffer b flow; EvPrintFailed (flow_code flow)] /\
      buf_pts b = timestamp w /\
      timestamp w' = wrap64 (timestamp w + GST_SECOND / FPS) /\
      timer_armed w' = false /\
      (forall flow', dispatch_timeout flow' w' = Ok tt w').
Proof.
  intros w fr flow Hf Hn Harmed Hflow.
  destruct (push_frame_with_frame w fr flow Hf Hn)
    as (w1 & Hrun & _ & _ & _ & Hts & Htr).
  assert (Hnok : flow_is_ok flow = false) by (destruct flow; try reflexivity; congruence).
  rewrite Hnok in Hrun, Htr.
  unfold dispatch_timeout, bind, get. rewrite Harmed, Hrun.
  cbn [set_timer_armed]. eexists. eexists.
  split; [reflexivity|]. cbn.
  split; [exact Htr|]. split; [reflexivity|]. split; [exact Hts|].
  split; [reflexivity|]. intros flow'. reflexivity.
Qed.

Lemma failed_push_stops_pump_witness :
  exists w' b,
    dispatch_timeout GST_FLOW_FLUSHING streaming_world = Ok tt w' /\
    trace w' = trace streaming_world
               ++ [EvPushBuffer b GST_FLOW_FLUSHING;
                   EvPrintFailed (flow_code GST_FLOW_FLUSHING)] /\
    buf_pts b = timestamp streaming_world /\
    timestamp w' = wrap64 (timestamp streaming_world + GST_SECOND / FPS) /\
    timer_armed w' = false /\
    (forall flow', dispatch_timeout flow' w' = Ok tt w').
Proof.
  apply (failed_push_stops_pump streaming_world [x10; x20; x30; x40] GST_FLOW_FLUSHING).
  - reflexivity.
  - vm_compute. discriminate.
  - reflexivity.
  - discriminate.
Defined.

(** ** One plane of a completed request *)

Lemma wrap32_range (z : Z) : 0 <= wrap32 z < 2 ^ 32.
Proof. unfold wrap32. apply Z.mod_pos_bound. lia. Qed.

Lemma wrap32_small (z : Z) : 0 <= z < 2 ^ 32 -> wrap32 z = z.
Proof. intros H. unfold wrap32. apply Z.mod_small. exact H. Qed.

Lemma size_of_nonneg (l : list byte) : 0 <= size_of l.
Proof. unfold size_of. lia. Qed.

Lemma clamped_bounds (p : Plane) : 0 <= clamped p <= size_of (data p).
Proof.
  unfold clamped.
  pose proof (wrap32_range (bytesused p)).
  pose proof (wrap32_range (size_of (data p))).
  pose proof (size_of_nonneg (data p)).
  assert (wrap32 (size_of (data p)) <= size_of (data p))
    by (unfold wrap32; apply Z.mod_le; lia).
  lia.
Qed.

(** The complete behaviour of the loop body for one plane. *)
Lemma publish_plane_run (alloc_ok : bool) (p : Plane) (w : world) :
  let r := publish_plane alloc_ok p w in
  let w' := final_world r in
  bytes_used w' = clamped p /\
  timestamp w' = timestamp w /\
  trace w' = trace w ++ payload_diagnostic p
             ++ match frame w with
                | None => [EvMalloc (clamped p) alloc_ok]
                | Some _ => []
                end /\
  match region_for alloc_ok p w with
  | None => r = Crash NullPointer w' /\ frame w' = None
  | Some fr =>
      if clamped p >? size_of fr
      then r = Crash WriteOutOfBounds w' /\ frame w' = Some fr
      else r = Ok tt w' /\
           frame w' = Some (firstn (Z.to_nat (clamped p)) (data p)
                            ++ skipn (Z.to_nat (clamped p)) fr)
  end.
Proof.
  pose proof (clamped_bounds p) as Hc.
  unfold publish_plane, region_for, payload_diagnostic.
  fold (clamped p). unfold bind, get.
  cbn [set_bytes_used].
  destruct (wrap32 (bytesused p) >? size_of (data p));
    cbn [emit ret frame bytes_used trace];
    destruct (frame w) as [fr|] eqn:Hf;
    cbn [emit ret set_frame frame bytes_used trace malloc];
    try destruct alloc_ok; cbn [malloc memcpy];
    try (destruct (Z.gtb_spec (clamped p) (size_of (data p))) as [Hgt|_]; [lia|]);
    try destruct (clamped p >? size_of fr);
    try (destruct (Z.gtb_spec (clamped p) (size_of (repeat x00 (Z.to_nat (clamped p)))))
           as [Hgt|_]; [unfold size_of in Hgt; rewrite repeat_length in Hgt; lia|]);
    cbn [crash set_frame final_world frame bytes_used trace timestamp];
    rewrite <- ?app_assoc; cbn [app];
    repeat split;
    first [reflexivity | exact Hf | symmetry; apply app_nil_r].
Qed.

Lemma firstn_after_copy (n : nat) (src dst : list byte) :
  (n <= List.length src)%nat ->
  firstn n (firstn n src ++ skipn n dst) = firstn n src.
Proof.
  intros Hn. rewrite firstn_app, firstn_firstn, Nat.min_id.
  rewrite length_firstn, Nat.min_l by exact Hn.
  rewrite Nat.sub_diag. simpl. apply app_nil_r.
Qed.

Lemma has_payload_diagnostic_app (t1 t2 : list event) :
  has_payload_diagnostic (t1 ++ t2)
  = has_payload_diagnostic t1 || has_payload_diagnostic t2.
Proof. unfold has_payload_diagnostic. apply existsb_app. Qed.

(** C3.  For a plane whose reported [bytesused] exceeds the mapped
    length, [bytes_used] becomes the mapped length, the diagnostic goes
    to std::cerr, and the bytes in [frame] are the mapped bytes; for
    [bytesused] within the mapped length exactly [bytesused] bytes are
    published and nothing is printed.  In neither case does the copy read
    past the end of the mapped plane.  (Both counts are 32-bit values, as
    [unsigned int bytesused] and the [unsigned int] plane length of
    libcamera are.) *)
Theorem clamp_on_oversized_bytes_used :
  forall (alloc_ok : bool) (p : Plane) (w : world),
    0 <= bytesused p < 2 ^ 32 -> size_of (data p) < 2 ^ 32 ->
    let r := publish_plane alloc_ok p w in
    let w' := final_world r in
    let mapped := size_of (data p) in
    let n := Z.min (bytesused p) mapped in
    (forall wc, r <> Crash ReadOutOfBounds wc) /\
    bytes_used w' = n /\
    (exists t, trace w' = trace w ++ t /\
               has_payload_diagnostic t = (bytesused p >? mapped)) /\
    (bytesused p > mapped ->
       n = mapped /\ In (EvCerrPayload (bytesused p) mapped) (trace w')) /\
    (bytesused p <= mapped -> n = bytesused p) /\
    (forall wo, r = Ok tt wo ->
       exists fr, frame wo = Some fr /\
                  firstn (Z.to_nat n) fr = firstn (Z.to_nat n) (data p)).
Proof.
  intros alloc_ok p w Hb Hs. cbv zeta.
  pose proof (size_of_nonneg (data p)) as Hnn.
  pose proof (publish_plane_run alloc_ok p w) as Hrun. cbv zeta in Hrun.
  set (r := publish_plane alloc_ok p w) in *.
  set (w' := final_world r) in *.
  set (mapped := size_of (data p)) in *.
  set (n := Z.min (bytesused p) mapped).
  assert (Hcl : clamped p = n).
  { unfold clamped, n, mapped. rewrite !wrap32_small by lia. reflexivity. }
  rewrite Hcl in Hrun. destruct Hrun as (Hbu & _ & Htr & Hcase).
  assert (Hdiag : payload_diagnostic p
                  = if bytesused p >? mapped
                    then [EvCerrPayload (bytesused p) mapped] else []).
  { unfold payload_diagnostic. rewrite wrap32_small by lia. reflexivity. }
  split; [|split; [exact Hbu|split; [|split; [|split]]]].
  - intros wc Hr. destruct (region_for alloc_ok p w) as [fr|].
    + destruct (n >? size_of fr); destruct Hcase as [Hc _]; congruence.
    + destruct Hcase as [Hc _]. congruence.
  - eexists. split; [exact Htr|].
    rewrite has_payload_diagnostic_app, Hdiag.
    destruct (bytesused p >? mapped), (frame w); reflexivity.
  - intros Hgt. split; [unfold n; lia|].
    rewrite Htr, Hdiag.
    destruct (Z.gtb_spec (bytesused p) mapped) as [_|Hle]; [|lia].
    apply in_or_app. right. left. reflexivity.
  - intros Hle. unfold n. lia.
  - intros wo Hr. destruct (region_for alloc_ok p w) as [fr|].
    + destruct (n >? size_of fr); destruct Hcase as [Hc Hfr]; [congruence|].
      rewrite Hc in Hr. injection Hr as <-.
      eexists. split; [exact Hfr|].
      apply firstn_after_copy. unfold n, mapped, size_of in *. lia.
    + destruct Hcase as [Hc _]. congruence.
Qed.

Lemma clamp_on_oversized_bytes_used_witness :
  bytes_used (final_world (publish_plane true oversized_plane initial_world)) = 4 /\
  frame (final_world (publish_plane true oversized_plane initial_world))
  = Some [x10; x20; x30; x40] /\
  (bytesused oversized_plane > size_of (data oversized_plane) ->
   Z.min (bytesused oversized_plane) (size_of (data oversized_plane))
   = size_of (data oversized_plane) /\
   In (EvCerrPayload (bytesused oversized_plane) (size_of (data oversized_plane)))
      (trace (final_world (publish_plane true oversized_plane initial_world)))).
Proof.
  split; [reflexivity|]. split; [reflexivity|].
  assert (H1 : 0 <= bytesused oversized_plane < 2 ^ 32) by (simpl; lia).
  assert (H2 : size_of (data oversized_plane) < 2 ^ 32) by (vm_compute; reflexivity).
  exact (proj1 (proj2 (proj2 (proj2
           (clamp_on_oversized_bytes_used true oversized_plane initial_world H1 H2))))).
Defined.

(** ** The frame store across a run *)

Lemma size_after_copy (n : Z) (src dst : list byte) :
  0 <= n <= size_of src -> n <= size_of dst ->
  size_of (firstn (Z.to_nat n) src ++ skipn (Z.to_nat n) dst) = size_of dst.
Proof.
  unfold size_of. intros Hs Hd.
  rewrite length_app, length_firstn, length_skipn. lia.
Qed.

Lemma size_of_fresh (n : Z) : 0 <= n -> size_of (repeat x00 (Z.to_nat n)) = n.
Proof. intros Hn. unfold size_of. rewrite repeat_length. lia. Qed.

Ltac same_prim :=
  let w := fresh "w" in let H := fresh "H" in intros w H; exact H.

Lemma publish_plane_keeps_store ok p :
  keeps store_ok (fun _ => True) (publish_plane ok p).
Proof.
  intros w _.
  pose proof (clamped_bounds p) as Hc.
  destruct (publish_plane_run ok p w) as (Hbu & _ & _ & Hcase).
  destruct (publish_plane ok p w) as [[] w'|f w']; [|exact I].
  cbn [final_world] in *.
  split; [rewrite Hbu; lia|]. intros fr' Hfr'. rewrite Hbu.
  destruct (region_for ok p w) as [fr|] eqn:Hreg.
  - destruct (Z.gtb_spec (clamped p) (size_of fr)) as [Hgt|Hle];
      destruct Hcase as [Heq Hfr]; [discriminate|].
    rewrite Hfr in Hfr'. injection Hfr' as <-.
    rewrite size_after_copy by lia. exact Hle.
  - destruct Hcase as [Heq _]. discriminate.
Qed.

Lemma push_frame_keeps_store flow :
  keeps store_ok (fun _ => True) (push_frame flow).
Proof.
  unfold push_frame.
  keeps_walk ltac:(first [exact (fun _ _ => I) | same_prim]).
Qed.

Lemma main_keeps_store env evs :
  keeps store_ok (fun _ => True) (main env evs).
Proof.
  apply main_keeps; intros;
    first [ exact I
          | apply publish_plane_keeps_store
          | apply push_frame_keeps_store
          | same_prim ].
Qed.

Lemma store_ok_initial : store_ok initial_world.
Proof. split; [cbn; lia | intros fr H; discriminate H]. Qed.

(** C4, amended.  In a state that a run of [main] has reached with every
    callback run to its end (no publication is in progress), a tick of
    the pump is a no-op while [frame] is still null (nothing has been
    published): the world, and with it the trace and the clock, is
    unchanged.  Once a frame has been published the tick submits exactly
    one buffer, whose length is [bytes_used] and whose bytes are the
    first [bytes_used] bytes of the stored frame.  (A tick that runs
    while a publication is in progress is the subject of the module
    [InterleavingFacts].) *)
Theorem tick_submits_iff_frame_published :
  forall (env : Env) (evs : list loop_event) (out : outcome) (w : world)
         (flow : GstFlowReturn),
    main env evs initial_world = Ok out w ->
    match frame w with
    | None => push_frame flow w = Ok true w
    | Some fr =>
        exists w' b,
          push_frame flow w = Ok (flow_is_ok flow) w' /\
          pushed (trace w') = pushed (trace w) ++ [b] /\
          buf_data b = firstn (Z.to_nat (bytes_used w)) fr /\
          size_of (buf_data b) = bytes_used w /\
          buf_pts b = timestamp w
    end.
Proof.
  intros env evs out w flow Hrun.
  pose proof (main_keeps_store env evs initial_world store_ok_initial) as Hst.
  rewrite Hrun in Hst. destruct Hst as [Hnn Hle].
  destruct (frame w) as [fr|] eqn:Hf.
  - specialize (Hle fr eq_refl).
    destruct (push_frame_with_frame w fr flow Hf Hle)
      as (w' & Hp & _ & _ & _ & _ & Htr).
    exists w', (mkBuffer (firstn (Z.to_nat (bytes_used w)) fr) (timestamp w)
                         (GST_SECOND / FPS)).
    split; [exact Hp|].
    split; [|split; [reflexivity|split; [|reflexivity]]].
    + rewrite Htr, pushed_app. cbn [pushed].
      destruct (flow_is_ok flow); reflexivity.
    + cbn [buf_data]. apply firstn_size. lia.
  - unfold push_frame, bind, get. rewrite Hf. reflexivity.
Qed.

Lemma tick_submits_witness :
  main sample_env [Completed true sample_request] initial_world
  = Ok StillRunning first_frame_world /\
  match frame first_frame_world with
  | None => push_frame GST_FLOW_OK first_frame_world = Ok true first_frame_world
  | Some fr =>
      exists w' b,
        push_frame GST_FLOW_OK first_frame_world = Ok (flow_is_ok GST_FLOW_OK) w' /\
        pushed (trace w') = pushed (trace first_frame_world) ++ [b] /\
        buf_data b = firstn (Z.to_nat (bytes_used first_frame_world)) fr /\
        size_of (buf_data b) = bytes_used first_frame_world /\
        buf_pts b = timestamp first_frame_world
  end.
Proof.
  assert (H : main sample_env [Completed true sample_request] initial_world
              = Ok StillRunning first_frame_world)
    by (vm_compute; reflexivity).
  split; [exact H|].
  exact (tick_submits_iff_frame_published sample_env
           [Completed true sample_request] StillRunning first_frame_world
           GST_FLOW_OK H).
Defined.

(** ** Requests that did not complete *)

(** C5 as stated fails: for a cancelled request the callback returns at
    once; the world is unchanged, so nothing was published, but the
    request was not handed back to the camera either. *)
Lemma cancelled_request_not_requeued :
  requestComplete true cancelled_request streaming_world = Ok tt streaming_world /\
  ~ In (EvQueueRequest (cookie cancelled_request))
       (trace (final_world (requestComplete true cancelled_request streaming_world))).
Proof. split; [reflexivity | intros H; exact H]. Qed.

(** C5, amended.  On a completion callback whose request status is not
    Complete nothing is published and the request is not re-queued: the
    callback returns without any effect. *)
Theorem incomplete_request_is_ignored :
  forall (alloc_ok : bool) (request : Request) (w : world),
    status request <> RequestComplete ->
    requestComplete alloc_ok request w = Ok tt w.
Proof.
  intros alloc_ok request w Hs. unfold requestComplete.
  destruct (status request); [reflexivity | congruence | reflexivity].
Qed.

Lemma incomplete_request_is_ignored_witness :
  requestComplete true cancelled_request first_frame_world = Ok tt first_frame_world.
Proof.
  apply (incomplete_request_is_ignored true cancelled_request first_frame_world).
  simpl. discriminate.
Defined.

(** For a completed request with one single-plane buffer the callback is
    the loop body followed by the re-queue. *)
Lemma requestComplete_single_plane (alloc_ok : bool) (c : Z) (p : Plane) (w : world) :
  requestComplete alloc_ok
    {| cookie := c; status := RequestComplete; buffers := [ {| planes := [p] |} ] |} w
  = match publish_plane alloc_ok p w with
    | Ok _ w' => (emit (EvReuse c) ;; emit (EvQueueRequest c))%m w'
    | Crash f w' => Crash f w'
    end.
Proof.
  unfold requestComplete. cbn [status negb status_eqb buffers planes for_each cookie].
  unfold bind at 1 2 3. cbn [ret].
  destruct (publish_plane alloc_ok p w) as [[] w'|f w']; reflexivity.
Qed.

(** ** The one allocation of the frame region *)

Lemma mallocs_diagnostic p : mallocs (payload_diagnostic p) = [].
Proof. unfold payload_diagnostic. destruct (_ >? _); reflexivity. Qed.

Lemma alloc_emit e : mallocs [e] = [] -> keeps alloc_inv at_most_one_malloc (emit e).
Proof.
  intros He w H. unfold alloc_inv in *. cbn [emit frame trace].
  rewrite mallocs_app, He, app_nil_r. exact H.
Qed.

Lemma alloc_inv_at_most_one w : alloc_inv w -> at_most_one_malloc w.
Proof.
  unfold alloc_inv, at_most_one_malloc. intros H.
  destruct (frame w); rewrite H; simpl; lia.
Qed.

Lemma publish_plane_keeps_alloc ok p :
  keeps alloc_inv at_most_one_malloc (publish_plane ok p).
Proof.
  intros w Hinv.
  pose proof (clamped_bounds p) as Hc.
  destruct (publish_plane_run ok p w) as (_ & _ & Htr & Hcase).
  unfold region_for, alloc_inv in *.
  assert (Hm : mallocs (trace (final_world (publish_plane ok p w)))
               = mallocs (trace w)
                 ++ match frame w with
                    | None => [(clamped p, ok)]
                    | Some _ => []
                    end).
  { rewrite Htr, !mallocs_app, mallocs_diagnostic.
    destruct (frame w); reflexivity. }
  destruct (frame w) as [fr|] eqn:Hf.
  - rewrite app_nil_r in Hm.
    destruct (Z.gtb_spec (clamped p) (size_of fr)) as [Hgt|Hle];
      destruct Hcase as [Heq Hfr]; rewrite Heq in *; cbn [final_world] in *.
    + unfold at_most_one_malloc. rewrite Hm, Hinv. simpl. lia.
    + rewrite Hfr, Hm, Hinv, size_after_copy by lia. reflexivity.
  - rewrite Hinv in Hm. cbn [app] in Hm.
    destruct ok; cbn [malloc] in Hcase.
    + rewrite size_of_fresh in Hcase by lia.
      destruct (Z.gtb_spec (clamped p) (clamped p)) as [Hgt|_]; [lia|].
      destruct Hcase as [Heq Hfr]. rewrite Heq in *. cbn [final_world] in *.
      rewrite Hfr, Hm, size_after_copy by (rewrite ?size_of_fresh; lia).
      rewrite size_of_fresh by lia. reflexivity.
    + destruct Hcase as [Heq _]. rewrite Heq in *. cbn [final_world] in *.
      unfold at_most_one_malloc. rewrite Hm. simpl. lia.
Qed.

Lemma push_frame_keeps_alloc flow :
  keeps alloc_inv at_most_one_malloc (push_frame flow).
Proof.
  unfold push_frame.
  keeps_walk ltac:(first [ apply alloc_emit; reflexivity
                         | exact alloc_inv_at_most_one
                         | same_prim ]).
Qed.

Lemma main_keeps_alloc env evs :
  keeps alloc_inv at_most_one_malloc (main env evs).
Proof.
  apply main_keeps; intros;
    first [ apply alloc_inv_at_most_one; assumption
          | apply alloc_emit; first [assumption | reflexivity]
          | apply publish_plane_keeps_alloc
          | apply push_frame_keeps_alloc
          | same_prim ].
Qed.

Lemma alloc_inv_initial : alloc_inv initial_world.
Proof. reflexivity. Qed.

(** C9.  In every execution [malloc] is called at most once.  The call
    happens in the first publication, when [frame] is still null, with
    the clamped byte count of that plane as its size; from then on the
    size of the region behind [frame] is the size of that one allocation,
    and every later publication copies its own clamped count over the
    head of that same region without allocating. *)
Theorem frame_region_allocated_once :
  forall (env : Env) (evs : list loop_event),
    let r := main env evs initial_world in
    (List.length (mallocs (trace (final_world r))) <= 1)%nat /\
    (forall out w, r = Ok out w ->
       match frame w with
       | None => mallocs (trace w) = []
       | Some fr => mallocs (trace w) = [(size_of fr, true)]
       end) /\
    (forall ok p w0 w1, publish_plane ok p w0 = Ok tt w1 ->
       match frame w0 with
       | None =>
           frame w1 = Some (firstn (Z.to_nat (clamped p)) (data p)) /\
           size_of (firstn (Z.to_nat (clamped p)) (data p)) = clamped p /\
           mallocs (trace w1) = mallocs (trace w0) ++ [(clamped p, true)]
       | Some fr =>
           frame w1 = Some (firstn (Z.to_nat (clamped p)) (data p)
                            ++ skipn (Z.to_nat (clamped p)) fr) /\
           size_of (firstn (Z.to_nat (clamped p)) (data p)
                    ++ skipn (Z.to_nat (clamped p)) fr) = size_of fr /\
           mallocs (trace w1) = mallocs (trace w0)
       end).
Proof.
  intros env evs r. split; [|split].
  - pose proof (main_keeps_alloc env evs initial_world alloc_inv_initial) as H.
    fold r in H. destruct r as [out w|f w]; cbn [final_world].
    + apply alloc_inv_at_most_one. exact H.
    + exact H.
  - intros out w Hr.
    pose proof (main_keeps_alloc env evs initial_world alloc_inv_initial) as H.
    fold r in H. rewrite Hr in H. exact H.
  - intros ok p w0 w1 Hrun.
    pose proof (clamped_bounds p) as Hc.
    destruct (publish_plane_run ok p w0) as (_ & _ & Htr & Hcase).
    rewrite Hrun in Htr, Hcase. cbn [final_world] in Htr, Hcase.
    unfold region_for in Hcase.
    destruct (frame w0) as [fr|] eqn:Hf.
    + destruct (Z.gtb_spec (clamped p) (size_of fr)) as [Hgt|Hle];
        destruct Hcase as [Heq Hfr]; [discriminate|].
      split; [exact Hfr|]. split; [apply size_after_copy; lia|].
      rewrite Htr, !mallocs_app, mallocs_diagnostic. cbn [app mallocs].
      apply app_nil_r.
    + destruct ok; cbn [malloc] in Hcase.
      * rewrite size_of_fresh in Hcase by lia.
        destruct (Z.gtb_spec (clamped p) (clamped p)) as [Hgt|_]; [lia|].
        destruct Hcase as [_ Hfr].
        rewrite skipn_all2, app_nil_r in Hfr by (rewrite repeat_length; lia).
        split; [exact Hfr|]. split; [apply firstn_size; lia|].
        rewrite Htr, !mallocs_app, mallocs_diagnostic. reflexivity.
      * destruct Hcase as [Heq _]. discriminate.
Qed.

Lemma frame_region_allocated_once_witness :
  publish_plane true sample_plane initial_world
  = Ok tt (final_world (publish_plane true sample_plane initial_world)) /\
  match frame initial_world with
  | None =>
      frame (final_world (publish_plane true sample_plane initial_world))
      = Some (firstn (Z.to_nat (clamped sample_plane)) (data sample_plane)) /\
      size_of (firstn (Z.to_nat (clamped sample_plane)) (data sample_plane))
      = clamped sample_plane /\
      mallocs (trace (final_world (publish_plane true sample_plane initial_world)))
      = mallocs (trace initial_world) ++ [(clamped sample_plane, true)]
  | Some fr =>
      frame (final_world (publish_plane true sample_plane initial_world))
      = Some (firstn (Z.to_nat (clamped sample_plane)) (data sample_plane)
              ++ skipn (Z.to_nat (clamped sample_plane)) fr) /\
      size_of (firstn (Z.to_nat (clamped sample_plane)) (data sample_plane)
               ++ skipn (Z.to_nat (clamped sample_plane)) fr) = size_of fr /\
      mallocs (trace (final_world (publish_plane true sample_plane initial_world)))
      = mallocs (trace initial_world)
  end.
Proof.
  assert (H : publish_plane true sample_plane initial_world
              = Ok tt (final_world (publish_plane true sample_plane initial_world)))
    by (vm_compute; reflexivity).
  split; [exact H|].
  exact (proj2 (proj2 (frame_region_allocated_once sample_env sample_events))
           true sample_plane initial_world _ H).
Defined.

(** ** The main loop never returns *)

Lemma forallb_snoc {A} (f : A -> bool) (l : list A) (x : A) :
  forallb f l = true -> f x = true -> forallb f (l ++ [x]) = true.
Proof.
  intros Hl Hx. rewrite forallb_app, Hl. simpl. rewrite Hx. reflexivity.
Qed.

Lemma startup_emit e :
  is_teardown e = false -> is_loop_entry e = false ->
  keeps startup_inv startup_inv (emit e).
Proof.
  intros H1 H2 w (Hs & Ht & Hl). unfold startup_inv, no_teardown, not_in_loop.
  cbn [emit sigint_installed trace].
  split; [exact Hs|]. split; apply forallb_snoc; try assumption.
  - rewrite H1. reflexivity.
  - rewrite H2. reflexivity.
Qed.

Lemma main_startup_keeps_startup_inv env :
  keeps startup_inv startup_inv (main_startup env).
Proof.
  apply main_startup_keeps; intros;
    first [ apply startup_emit; first [assumption | reflexivity] | same_prim ].
Qed.

Lemma loop_emit e :
  is_teardown e = false -> keeps loop_inv loop_inv (emit e).
Proof.
  intros H1 w (Hr & Hs & Ht). unfold loop_inv, no_teardown.
  cbn [emit sigint_installed loop_is_running trace].
  split; [exact Hr|]. split; [exact Hs|].
  apply forallb_snoc; [exact Ht | rewrite H1; reflexivity].
Qed.

Ltac loop_prim := first [apply loop_emit; reflexivity | same_prim].

Lemma publish_plane_keeps_loop ok p : keeps loop_inv loop_inv (publish_plane ok p).
Proof. unfold publish_plane. keeps_walk loop_prim. Qed.

Lemma push_frame_keeps_loop flow : keeps loop_inv loop_inv (push_frame flow).
Proof. unfold push_frame. keeps_walk loop_prim. Qed.

Lemma dispatch_timeout_keeps_loop flow :
  keeps loop_inv loop_inv (dispatch_timeout flow).
Proof.
  apply dispatch_timeout_keeps; intros;
    first [ apply push_frame_keeps_loop | same_prim ].
Qed.

Lemma requestComplete_keeps_loop ok r :
  keeps loop_inv loop_inv (requestComplete ok r).
Proof.
  apply requestComplete_keeps; intros;
    first [ apply loop_emit; assumption | apply publish_plane_keeps_loop ].
Qed.

(** From a state in which the loop runs and SIGINT has its default
    disposition, the loop either waits for more events or the process is
    killed; it never returns to [main]. *)
Lemma main_loop_iterate_never_quits evs :
  hoare loop_inv (main_loop_iterate evs)
        (fun x w => x <> LoopQuit /\ loop_inv w) loop_inv.
Proof.
  induction evs as [|e evs IH]; intros w Hw;
    pose proof Hw as (Hr & Hs & Ht); simpl; unfold bind at 1, get at 1;
    rewrite Hr; cbn [negb].
  - split; [discriminate | exact Hw].
  - destruct e as [flow|ok r|].
    + exact (hoare_bind loop_inv loop_inv (dispatch_timeout flow)
               (fun _ => main_loop_iterate evs) (fun _ => loop_inv) _
               (dispatch_timeout_keeps_loop flow) (fun _ => IH) w Hw).
    + exact (hoare_bind loop_inv loop_inv (requestComplete ok r)
               (fun _ => main_loop_iterate evs) (fun _ => loop_inv) _
               (requestComplete_keeps_loop ok r) (fun _ => IH) w Hw).
    + unfold bind, get. rewrite Hs. cbn [ret].
      split; [discriminate | exact Hw].
Qed.

Lemma not_in_loop_no_entry t : not_in_loop t -> ~ In EvMainLoopRun t.
Proof.
  unfold not_in_loop. intros H Hin.
  rewrite forallb_forall in H. specialize (H _ Hin). discriminate H.
Qed.

Lemma no_teardown_not_in t e : no_teardown t -> is_teardown e = true -> ~ In e t.
Proof.
  unfold no_teardown. intros H He Hin.
  rewrite forallb_forall in H. specialize (H _ Hin).
  rewrite He in H. discriminate H.
Qed.

Lemma startup_inv_initial : startup_inv initial_world.
Proof. repeat split. Qed.

Lemma main_unfold env evs w :
  main env evs w
  = match main_startup env w with
    | Ok (Some code) w1 => Ok (Exited code) w1
    | Ok None w1 =>
        match main_loop_iterate evs
                (final_world ((emit EvMainLoopRun ;; set_loop_is_running true)%m w1)) with
        | Ok LoopWaiting w2 => Ok StillRunning w2
        | Ok ProcessKilled w2 => Ok KilledBySigint w2
        | Ok LoopQuit w2 => (code <- main_cleanup ;; ret (Exited code))%m w2
        | Crash f w2 => Crash f w2
        end
    | Crash f w1 => Crash f w1
    end.
Proof.
  unfold main, bind at 1.
  destruct (main_startup env w) as [[code|] w1|f w1]; try reflexivity.
  unfold g_main_loop_run, bind at 1 2 3. cbn [emit set_loop_is_running final_world bind].
  destruct (main_loop_iterate evs _) as [[] w2|f w2]; reflexivity.
Qed.

Lemma loop_inv_on_entry w :
  startup_inv w ->
  loop_inv (final_world ((emit EvMainLoopRun ;; set_loop_is_running true)%m w)).
Proof.
  intros (Hs & Ht & _). cbn. split; [reflexivity|]. split; [exact Hs|].
  apply forallb_snoc; [exact Ht | reflexivity].
Qed.

(** C10.  In every run of [main] that reaches [g_main_loop_run], the
    loop is never left: SIGINT keeps its default disposition, the loop's
    running flag is never cleared, [main] does not return, and none of
    the calls of the clean-up after the loop (camera stop, freeing the
    buffer pool, end-of-stream, setting the pipeline to NULL) is ever
    made. *)
Theorem cleanup_after_loop_is_unreachable :
  forall (env : Env) (evs : list loop_event),
    let r := main env evs initial_world in
    let w := final_world r in
    In EvMainLoopRun (trace w) ->
    (forall code w', r <> Ok (Exited code) w') /\
    sigint_installed w = false /\
    loop_is_running w = true /\
    ~ In EvCameraStop (trace w) /\
    ~ In EvAllocatorFree (trace w) /\
    ~ In EvEndOfStream (trace w) /\
    ~ In (EvSetState false) (trace w).
Proof.
  intros env evs r. assert (Hr : r = main env evs initial_world) by reflexivity.
  clearbody r. rewrite main_unfold in Hr. cbv zeta.
  pose proof (main_startup_keeps_startup_inv env initial_world startup_inv_initial) as Hst.
  destruct (main_startup env initial_world) as [[code|] w1|f w1].
  - subst r. cbn [final_world]. intros Hin. destruct Hst as (_ & _ & Hl).
    exfalso. exact (not_in_loop_no_entry _ Hl Hin).
  - intros _.
    pose proof (main_loop_iterate_never_quits evs _ (loop_inv_on_entry w1 Hst)) as Hloop.
    destruct (main_loop_iterate evs _) as [x w3|f w3].
    + destruct Hloop as (Hx & Hrun & Hs3 & Ht3).
      destruct x; [congruence| |]; subst r; cbn [final_world];
        (split; [intros code w' H; discriminate H|]);
        repeat split; try assumption;
        apply no_teardown_not_in; try assumption; reflexivity.
    + destruct Hloop as (Hrun & Hs3 & Ht3). subst r. cbn [final_world].
      split; [intros code w' H; discriminate H|].
      repeat split; try assumption;
        apply no_teardown_not_in; try assumption; reflexivity.
  - subst r. cbn [final_world]. intros Hin. destruct Hst as (_ & _ & Hl).
    exfalso. exact (not_in_loop_no_entry _ Hl Hin).
Qed.

Lemma loop_entry_in t : existsb is_loop_entry t = true -> In EvMainLoopRun t.
Proof.
  intros H. apply existsb_exists in H. destruct H as (e & Hin & He).
  destruct e; try discriminate He. exact Hin.
Qed.

Lemma cleanup_after_loop_is_unreachable_witness :
  let r := main sample_env interrupted_events initial_world in
  let w := final_world r in
  In EvMainLoopRun (trace w) /\
  (forall code w', r <> Ok (Exited code) w') /\
  sigint_installed w = false /\
  loop_is_running w = true /\
  ~ In EvCameraStop (trace w) /\
  ~ In EvAllocatorFree (trace w) /\
  ~ In EvEndOfStream (trace w) /\
  ~ In (EvSetState false) (trace w).
Proof.
  intros r w.
  assert (H : In EvMainLoopRun (trace w))
    by (apply loop_entry_in; vm_compute; reflexivity).
  split; [exact H|].
  exact (cleanup_after_loop_is_unreachable sample_env interrupted_events H).
Defined.

(** ** The interrupt *)

(** C6 at a failing input.  Start-up succeeds, a frame is published, two
    buffers are pushed, and then SIGINT arrives.  No handler is installed,
    so the process is killed: no end-of-stream reaches the encoder source
    and no call of the clean-up is made (the pump indeed emits nothing
    further: both buffers in the trace were pushed before the signal).
    The clean-up itself, wherever it would start, stops the camera before
    it frees the pool and sends one end-of-stream. *)
Theorem interrupt_delivers_no_end_of_stream :
  main sample_env interrupted_events initial_world
  = Ok KilledBySigint interrupted_world /\
  count_eos (trace interrupted_world) = 0%nat /\
  existsb is_teardown (trace interrupted_world) = false /\
  map buf_pts (pushed (trace interrupted_world)) = [0; 33333333] /\
  (forall w,
     trace (final_world (main_cleanup w))
     = trace w ++ [EvCout "Stopping..."; EvCameraStop; EvAllocatorFree;
                   EvCameraRelease; EvCamManagerStop; EvEndOfStream;
                   EvSetState false; EvObjectUnref "g_appsrc";
                   EvObjectUnref "pipeline"]).
Proof.
  split; [vm_compute; reflexivity|].
  split; [vm_compute; reflexivity|].
  split; [vm_compute; reflexivity|].
  split; [vm_compute; reflexivity|].
  intros w. unfold main_cleanup, bind. cbn [emit ret final_world trace].
  rewrite <- !app_assoc. reflexivity.
Qed.

(** ** The caps of the encoder source *)

Lemma caps_of_pipeline_desc (ip : string) (port : Z) :
  appsrc_caps (pipeline_desc ip port) = Some launch_caps.
Proof. vm_compute. reflexivity. Qed.

Lemma launches_app (t1 t2 : list event) :
  launches (t1 ++ t2) = launches t1 ++ launches t2.
Proof. unfold launches. apply flat_map_app. Qed.

Lemma caps_emit e : launches [e] = [] -> keeps caps_inv caps_inv (emit e).
Proof.
  intros He w H. unfold caps_inv in *. cbn [emit trace].
  rewrite launches_app, He, app_nil_r. exact H.
Qed.

Lemma caps_emit_launch ip port :
  keeps caps_inv caps_inv (emit (EvParseLaunch (pipeline_desc ip port))).
Proof.
  intros w H. unfold caps_inv in *. cbn [emit trace].
  intros desc Hin. rewrite launches_app in Hin.
  apply in_app_or in Hin. destruct Hin as [Hin|[<-|[]]].
  - apply H. exact Hin.
  - apply caps_of_pipeline_desc.
Qed.

Ltac caps_prim := first [apply caps_emit; reflexivity | same_prim].

Lemma publish_plane_keeps_caps ok p : keeps caps_inv caps_inv (publish_plane ok p).
Proof. unfold publish_plane. keeps_walk caps_prim. Qed.

Lemma push_frame_keeps_caps flow : keeps caps_inv caps_inv (push_frame flow).
Proof. unfold push_frame. keeps_walk caps_prim. Qed.

Lemma main_keeps_caps env evs : keeps caps_inv caps_inv (main env evs).
Proof.
  apply main_keeps; intros;
    first [ assumption
          | apply caps_emit; assumption
          | apply caps_emit_launch
          | apply publish_plane_keeps_caps
          | apply push_frame_keeps_caps
          | same_prim ].
Qed.

Lemma caps_inv_initial : caps_inv initial_world.
Proof. intros desc []. Qed.

(** C7 as stated fails: here the driver adjusts the configuration to
    640x480.  [main] saves that size in [width] and [height], builds the
    pipeline and sets it to Playing, but the caps of the encoder source
    are those of the launch line, 800x600. *)
Lemma adjusted_resolution_not_in_caps :
  let w := final_world (main adjusting_env [] initial_world) in
  validate adjusting_env (mkStreamCfg "XRGB8888" 800 600)
  = (Adjusted, mkStreamCfg "XRGB8888" 640 480) /\
  width w = 640 /\ height w = 480 /\
  existsb (fun e => match e with EvSetState true => true | _ => false end) (trace w)
  = true /\
  map appsrc_caps (launches (trace w)) = [Some launch_caps] /\
  caps_width launch_caps <> width w /\
  caps_height launch_caps <> height w.
Proof.
  vm_compute. repeat split; try reflexivity; discriminate.
Qed.

(** C7, amended.  In every execution the caps of the encoder source are
    the ones written in the launch line, BGRx 800x600 at 30/1, whatever
    configuration the camera negotiated; no launch line carries other
    caps, so they are never rebuilt from the negotiated size. *)
Theorem appsrc_caps_are_fixed :
  forall (env : Env) (evs : list loop_event) (desc : string),
    In desc (launches (trace (final_world (main env evs initial_world)))) ->
    appsrc_caps desc = Some launch_caps.
Proof.
  intros env evs desc Hin.
  pose proof (main_keeps_caps env evs initial_world caps_inv_initial) as H.
  destruct (main env evs initial_world); cbn [final_world] in Hin;
    exact (H desc Hin).
Qed.

Lemma appsrc_caps_are_fixed_witness :
  In (pipeline_desc "192.168.1.50" 5000)
     (launches (trace (final_world (main adjusting_env [] initial_world)))) /\
  appsrc_caps (pipeline_desc "192.168.1.50" 5000) = Some launch_caps.
Proof.
  assert (H : In (pipeline_desc "192.168.1.50" 5000)
                 (launches (trace (final_world (main adjusting_env [] initial_world)))))
    by (vm_compute; left; reflexivity).
  split; [exact H|].
  exact (appsrc_caps_are_fixed adjusting_env [] _ H).
Defined.

(** ** Publication and snapshot on two threads *)

Module InterleavingFacts.
Import Interleaving.

(** C8 as stated fails: no lock orders the two copies.  With the schedule
    below the tick reads the first byte of the second publication and the
    second byte of the first one; its payload is neither publication. *)
Lemma torn_snapshot :
  exists st,
    run true overlapping_schedule start_of_day = Some st /\
    snapshots_of st = [[x02; x01]] /\
    [x02; x01] <> data publication_1 /\
    [x02; x01] <> data publication_2.
Proof.
  eexists. split; [vm_compute; reflexivity|].
  split; [reflexivity|]. split; discriminate.
Qed.

Lemma run_app ok (s1 s2 : list thread) (st : system) :
  run ok (s1 ++ s2) st
  = match run ok s1 st with
    | Some st' => run ok s2 st'
    | None => None
    end.
Proof.
  revert st. induction s1 as [|t s1 IH]; intros st; simpl; [reflexivity|].
  destruct (step ok t st); [apply IH | reflexivity].
Qed.

Lemma firstn_S_nth {A} (l : list A) (i : nat) (b : A) :
  nth_error l i = Some b -> firstn (S i) l = firstn i l ++ [b].
Proof.
  revert i. induction l as [|x l IH]; intros [|i] H; try discriminate H.
  - injection H as ->. reflexivity.
  - simpl in H. cbn [firstn app]. f_equal. apply (IH i H).
Qed.

Lemma skipn_nth {A} (l : list A) (i : nat) (x : A) :
  nth_error l i = Some x -> skipn i l = x :: skipn (S i) l.
Proof.
  revert i. induction l as [|y l IH]; intros [|i] H; try discriminate H.
  - injection H as ->. reflexivity.
  - simpl in H. exact (IH i H).
Qed.

Lemma write_byte_middle (l1 : list byte) (x b : byte) (l2 : list byte) :
  write_byte (List.length l1) b (l1 ++ x :: l2) = Some (l1 ++ b :: l2).
Proof.
  induction l1 as [|y l1 IH]; simpl; [reflexivity|].
  rewrite IH. reflexivity.
Qed.

Lemma nth_error_some {A} (l : list A) (i : nat) :
  (i < List.length l)%nat -> exists x, nth_error l i = Some x.
Proof.
  intros H. destruct (nth_error l i) eqn:E; [eexists; reflexivity|].
  apply nth_error_None in E. lia.
Qed.

(** The copy of the camera thread, running alone from byte [i] on. *)
Lemma publisher_copy_alone ok (k : nat) :
  forall (i n : nat) (src fr0 : list byte) (rest : list Plane) (bu : Z) (r : reader),
    (i + k = n)%nat -> (n <= List.length src)%nat -> (n <= List.length fr0)%nat ->
    run ok (repeat Camera k)
        ({| sh_frame := Some (firstn i src ++ skipn i fr0); sh_bytes_used := bu |},
         PubCopying src n i rest, r)
    = Some ({| sh_frame := Some (firstn n src ++ skipn n fr0); sh_bytes_used := bu |},
            PubCopying src n n rest, r).
Proof.
  induction k as [|k IH]; intros i n src fr0 rest bu r Hk Hs Hf.
  - replace i with n by lia. reflexivity.
  - cbn [repeat run step publisher_step sh_frame sh_bytes_used].
    destruct (Nat.ltb_spec i n) as [_|Hge]; [|lia].
    destruct (nth_error_some src i ltac:(lia)) as (b & Hb).
    destruct (nth_error_some fr0 i ltac:(lia)) as (x & Hx).
    rewrite Hb, (skipn_nth _ _ _ Hx).
    replace i with (List.length (firstn i src)) at 1
      by (rewrite length_firstn; lia).
    rewrite write_byte_middle.
    replace (firstn i src ++ b :: skipn (S i) fr0)
      with (firstn (S i) src ++ skipn (S i) fr0)
      by (rewrite (firstn_S_nth _ _ _ Hb), <- app_assoc; reflexivity).
    apply IH; lia.
Qed.

(** The copy of the loop thread, running alone from byte [i] on. *)
Lemma reader_copy_alone ok (k : nat) :
  forall (i n : nat) (fr : list byte) (snaps : list (list byte))
         (bu : Z) (p : publisher),
    (i + k = n)%nat -> (n <= List.length fr)%nat ->
    run ok (repeat Loop k)
        ({| sh_frame := Some fr; sh_bytes_used := bu |}, p,
         RdCopying n i (firstn i fr) snaps)
    = Some ({| sh_frame := Some fr; sh_bytes_used := bu |}, p,
            RdCopying n n (firstn n fr) snaps).
Proof.
  induction k as [|k IH]; intros i n fr snaps bu p Hk Hf.
  - replace i with n by lia. reflexivity.
  - cbn [repeat run step reader_step sh_frame].
    destruct (Nat.ltb_spec i n) as [_|Hge]; [|lia].
    destruct (nth_error_some fr i ltac:(lia)) as (b & Hb).
    rewrite Hb, <- (firstn_S_nth _ _ _ Hb).
    apply IH; lia.
Qed.

(** A whole publication with nothing in between. *)
Lemma publication_alone ok (p : Plane) (rest : list Plane) (fr : list byte)
    (bu : Z) (r : reader) :
  clamped p <= size_of fr ->
  run ok (uninterrupted Camera (Z.to_nat (clamped p)))
      ({| sh_frame := Some fr; sh_bytes_used := bu |}, PubIdle (p :: rest), r)
  = Some ({| sh_frame := Some (firstn (Z.to_nat (clamped p)) (data p)
                               ++ skipn (Z.to_nat (clamped p)) fr);
             sh_bytes_used := clamped p |}, PubIdle rest, r).
Proof.
  intros Hle. pose proof (clamped_bounds p) as Hc.
  unfold uninterrupted.
  cbn [run step publisher_step sh_frame]. fold (clamped p).
  rewrite run_app.
  pose proof (publisher_copy_alone ok (Z.to_nat (clamped p)) 0
                (Z.to_nat (clamped p)) (data p) fr rest (clamped p) r) as Hcopy.
  cbn [firstn skipn app] in Hcopy.
  rewrite Hcopy by (unfold size_of in *; lia).
  cbn [run step publisher_step]. rewrite Nat.ltb_irrefl. reflexivity.
Qed.

(** A whole tick with nothing in between. *)
Lemma snapshot_alone ok (fr : list byte) (bu : Z) (p : publisher)
    (snaps : list (list byte)) :
  bu <= size_of fr ->
  run ok (uninterrupted Loop (Z.to_nat bu))
      ({| sh_frame := Some fr; sh_bytes_used := bu |}, p, RdIdle snaps)
  = Some ({| sh_frame := Some fr; sh_bytes_used := bu |}, p,
          RdIdle (snaps ++ [firstn (Z.to_nat bu) fr])).
Proof.
  intros Hle. unfold uninterrupted.
  cbn [run step reader_step sh_frame sh_bytes_used].
  rewrite run_app.
  pose proof (reader_copy_alone ok (Z.to_nat bu) 0 (Z.to_nat bu) fr snaps bu p)
    as Hcopy.
  cbn [firstn] in Hcopy.
  rewrite Hcopy by (unfold size_of in *; lia).
  cbn [run step reader_step]. rewrite Nat.ltb_irrefl. reflexivity.
Qed.

(** Run alone, the two threads do what the callbacks [publish_plane] and
    [push_frame] do in one piece. *)
Lemma publication_alone_is_publish_plane ok (p : Plane) (rest : list Plane)
    (w : world) (fr : list byte) (r : reader) :
  frame w = Some fr -> clamped p <= size_of fr ->
  publish_plane ok p w = Ok tt (final_world (publish_plane ok p w)) /\
  run ok (uninterrupted Camera (Z.to_nat (clamped p)))
      ({| sh_frame := frame w; sh_bytes_used := bytes_used w |},
       PubIdle (p :: rest), r)
  = Some ({| sh_frame := frame (final_world (publish_plane ok p w));
             sh_bytes_used := bytes_used (final_world (publish_plane ok p w)) |},
          PubIdle rest, r).
Proof.
  intros Hf Hle.
  destruct (publish_plane_run ok p w) as (Hbu & _ & _ & Hcase).
  unfold region_for in Hcase. rewrite Hf in Hcase.
  destruct (Z.gtb_spec (clamped p) (size_of fr)) as [Hgt|_]; [lia|].
  destruct Hcase as [Heq Hfr]. split; [exact Heq|].
  rewrite Hf, Hfr, Hbu. apply publication_alone. exact Hle.
Qed.

Lemma snapshot_alone_is_push_frame ok (flow : GstFlowReturn) (w : world)
    (fr : list byte) (p : publisher) (snaps : list (list byte)) :
  frame w = Some fr -> bytes_used w <= size_of fr ->
  exists w' b,
    push_frame flow w = Ok (flow_is_ok flow) w' /\
    pushed (trace w') = pushed (trace w) ++ [b] /\
    run ok (uninterrupted Loop (Z.to_nat (bytes_used w)))
        ({| sh_frame := frame w; sh_bytes_used := bytes_used w |}, p, RdIdle snaps)
    = Some ({| sh_frame := frame w; sh_bytes_used := bytes_used w |}, p,
            RdIdle (snaps ++ [buf_data b])).
Proof.
  intros Hf Hle.
  destruct (push_frame_with_frame w fr flow Hf Hle)
    as (w' & Hp & _ & _ & _ & _ & Htr).
  exists w', (mkBuffer (firstn (Z.to_nat (bytes_used w)) fr) (timestamp w)
                       (GST_SECOND / FPS)).
  split; [exact Hp|]. split.
  - rewrite Htr, pushed_app. cbn [pushed].
    destruct (flow_is_ok flow); reflexivity.
  - rewrite Hf. cbn [buf_data]. apply snapshot_alone. exact Hle.
Qed.

(** The first publication: its first step also allocates the region,
    and from there on it runs like any other. *)
Lemma first_publication_allocates (p : Plane) (rest : list Plane) (bu : Z)
    (r : reader) :
  run true (uninterrupted Camera (Z.to_nat (clamped p)))
      ({| sh_frame := None; sh_bytes_used := bu |}, PubIdle (p :: rest), r)
  = run true (uninterrupted Camera (Z.to_nat (clamped p)))
      ({| sh_frame := Some (repeat x00 (Z.to_nat (clamped p)));
          sh_bytes_used := bu |},
       PubIdle (p :: rest), r).
Proof.
  unfold uninterrupted. cbn [run step publisher_step sh_frame malloc].
  reflexivity.
Qed.

(** C4 as stated fails: nothing orders a tick and the first publication.
    With the schedule below the camera thread has set [bytes_used] and
    allocated the region, but has copied no byte of the first frame, when
    the tick runs.  [frame] is not null any more, so the tick (which is
    [push_frame] on that state) submits a buffer of two bytes, none of
    them published. *)
Lemma tick_during_first_publication :
  exists s,
    run true early_tick_schedule start_of_day
    = Some (s, PubCopying (data publication_1) 2 0 [publication_2],
            RdIdle [[x00; x00]]) /\
    [x00; x00] <> data publication_1 /\
    forall (w : world) (flow : GstFlowReturn),
      frame w = sh_frame s -> bytes_used w = sh_bytes_used s ->
      exists b,
        pushed (trace (final_world (push_frame flow w)))
        = pushed (trace w) ++ [b] /\
        buf_data b = [x00; x00].
Proof.
  exists {| sh_frame := Some [x00; x00]; sh_bytes_used := 2 |}.
  split; [vm_compute; reflexivity|]. split; [discriminate|].
  cbn [sh_frame sh_bytes_used]. intros w flow Hf Hb.
  destruct (push_frame_with_frame w [x00; x00] flow Hf
              ltac:(rewrite Hb; vm_compute; discriminate))
    as (w' & Hp & _ & _ & _ & _ & Htr).
  rewrite Hp. cbn [final_world]. rewrite Htr, pushed_app, Hb. cbn [pushed].
  eexists. split.
  - destruct (flow_is_ok flow); reflexivity.
  - reflexivity.
Qed.

(** C8, amended.  The source has neither a lock nor a generation counter.
    When a publication's copy runs from start to end with no tick in
    between (the first publication, which allocates the region, included)
    and ticks run while no publication is in progress, every such tick
    takes exactly the published bytes (the plane's clamped count of
    them), and two ticks with no publication between them take identical
    bytes. *)
Theorem uninterrupted_snapshots_are_whole :
  forall (ok : bool) (p : Plane) (rest : list Plane) (s : shared)
         (snaps : list (list byte)),
    match sh_frame s with
    | Some fr => clamped p <= size_of fr
    | None => ok = true
    end ->
    let n := Z.to_nat (clamped p) in
    let region := match sh_frame s with
                  | Some fr => fr
                  | None => repeat x00 n
                  end in
    run ok (uninterrupted Camera n ++ uninterrupted Loop n ++ uninterrupted Loop n)
        (s, PubIdle (p :: rest), RdIdle snaps)
    = Some ({| sh_frame := Some (firstn n (data p) ++ skipn n region);
               sh_bytes_used := clamped p |},
            PubIdle rest,
            RdIdle (snaps ++ [firstn n (data p); firstn n (data p)])).
Proof.
  intros ok p rest [fr0 bu] snaps Hpre n region.
  pose proof (clamped_bounds p) as Hc.
  assert (Hle : clamped p <= size_of region).
  { unfold region. cbn [sh_frame] in *. destruct fr0 as [fr|]; [exact Hpre|].
    unfold n. rewrite size_of_fresh by lia. lia. }
  assert (Hpub : run ok (uninterrupted Camera n)
                     ({| sh_frame := fr0; sh_bytes_used := bu |},
                      PubIdle (p :: rest), RdIdle snaps)
                 = Some ({| sh_frame := Some (firstn n (data p) ++ skipn n region);
                            sh_bytes_used := clamped p |},
                         PubIdle rest, RdIdle snaps)).
  { unfold region, n in *. cbn [sh_frame] in *. destruct fr0 as [fr|].
    - apply publication_alone. exact Hle.
    - rewrite Hpre, first_publication_allocates.
      apply publication_alone. exact Hle. }
  assert (Hsz : clamped p <= size_of (firstn n (data p) ++ skipn n region)).
  { unfold n. rewrite size_after_copy by lia. exact Hle. }
  assert (Hsnap : firstn n (firstn n (data p) ++ skipn n region)
                  = firstn n (data p)).
  { apply firstn_after_copy. unfold n, size_of in *. lia. }
  rewrite run_app, Hpub, run_app.
  unfold n at 1. rewrite (snapshot_alone ok _ (clamped p) _ snaps Hsz). fold n.
  unfold n at 1. rewrite (snapshot_alone ok _ (clamped p) _ _ Hsz). fold n.
  rewrite Hsnap, <- app_assoc. reflexivity.
Qed.

Lemma uninterrupted_snapshots_witness :
  run true (uninterrupted Camera 2 ++ uninterrupted Loop 2 ++ uninterrupted Loop 2)
      ({| sh_frame := None; sh_bytes_used := 0 |},
       PubIdle [publication_1; publication_2], RdIdle [])
  = Some ({| sh_frame := Some [x01; x01]; sh_bytes_used := 2 |},
          PubIdle [publication_2], RdIdle [[x01; x01]; [x01; x01]]).
Proof.
  exact (uninterrupted_snapshots_are_whole true publication_1 [publication_2]
           {| sh_frame := None; sh_bytes_used := 0 |} [] eq_refl).
Defined.

End InterleavingFacts.

(** * Further properties *)

(** ** [XRGB8888toRGB] *)

Lemma drop_first_of_four_length (p : nat) :
  forall src, (4 * p <= List.length src)%nat ->
              (3 * p <= List.length (drop_first_of_four src))%nat.
Proof.
  induction p as [|p IH]; intros src H; [lia|].
  destruct src as [|x [|r [|g [|b rest]]]]; simpl in H; try lia.
  cbn [drop_first_of_four List.length].
  specialize (IH rest ltac:(lia)). lia.
Qed.

(** Pixel [p] of the source and the three bytes it contributes. *)
Lemma pixel_bytes (p : nat) :
  forall src, (4 * p + 4 <= List.length src)%nat ->
    exists r g b,
      nth_error src (4 * p + 1) = Some r /\
      nth_error src (4 * p + 2) = Some g /\
      nth_error src (4 * p + 3) = Some b /\
      firstn (3 * p + 3) (drop_first_of_four src)
      = firstn (3 * p) (drop_first_of_four src) ++ [r; g; b].
Proof.
  induction p as [|p IH]; intros src H.
  - destruct src as [|x [|r [|g [|b rest]]]]; simpl in H; try lia.
    exists r, g, b. repeat split; reflexivity.
  - destruct src as [|x [|r [|g [|b rest]]]]; simpl in H; try lia.
    destruct (IH rest ltac:(lia)) as (r' & g' & b' & H1 & H2 & H3 & H4).
    exists r', g', b'.
    replace (4 * S p + 1)%nat with (S (S (S (S (4 * p + 1))))) by lia.
    replace (4 * S p + 2)%nat with (S (S (S (S (4 * p + 2))))) by lia.
    replace (4 * S p + 3)%nat with (S (S (S (S (4 * p + 3))))) by lia.
    replace (3 * S p + 3)%nat with (S (S (S (3 * p + 3)))) by lia.
    replace (3 * S p)%nat with (S (S (S (3 * p)))) by lia.
    cbn [nth_error drop_first_of_four firstn app].
    repeat split; try assumption. rewrite H4. reflexivity.
Qed.

Lemma copy_byte_middle (src : list byte) (i : nat) (b x : byte)
    (l1 l2 : list byte) (j : nat) :
  nth_error src i = Some b -> j = List.length l1 ->
  copy_byte src i (l1 ++ x :: l2) j = inr (l1 ++ b :: l2).
Proof.
  intros Hb ->. unfold copy_byte.
  rewrite Hb, InterleavingFacts.write_byte_middle. reflexivity.
Qed.

Lemma skipn_three {A} (l : list A) (n : nat) :
  (n + 3 <= List.length l)%nat ->
  exists x y z, skipn n l = x :: y :: z :: skipn (n + 3) l.
Proof.
  intros H.
  destruct (InterleavingFacts.nth_error_some l n ltac:(lia)) as (x & Hx).
  destruct (InterleavingFacts.nth_error_some l (S n) ltac:(lia)) as (y & Hy).
  destruct (InterleavingFacts.nth_error_some l (S (S n)) ltac:(lia)) as (z & Hz).
  exists x, y, z.
  rewrite (InterleavingFacts.skipn_nth _ _ _ Hx),
          (InterleavingFacts.skipn_nth _ _ _ Hy),
          (InterleavingFacts.skipn_nth _ _ _ Hz).
  replace (n + 3)%nat with (S (S (S n))) by lia. reflexivity.
Qed.

(** The inner loop, from pixel [p] on. *)
Lemma convert_pixels_run (src dst : list byte) (n : nat) :
  forall p,
    (4 * (p + n) <= List.length src)%nat ->
    (3 * (p + n) <= List.length dst)%nat ->
    convert_pixels n (4 * p) (3 * p) src
      (firstn (3 * p) (drop_first_of_four src) ++ skipn (3 * p) dst)
    = inr (firstn (3 * (p + n)) (drop_first_of_four src)
           ++ skipn (3 * (p + n)) dst).
Proof.
  induction n as [|n IH]; intros p Hs Hd.
  - rewrite Nat.add_0_r. reflexivity.
  - cbn [convert_pixels].
    destruct (pixel_bytes p src ltac:(lia)) as (r & g & b & H1 & H2 & H3 & H4).
    destruct (skipn_three dst (3 * p) ltac:(lia)) as (x & y & z & Hsk).
    pose proof (drop_first_of_four_length p src ltac:(lia)) as Hlen.
    set (A := firstn (3 * p) (drop_first_of_four src)) in *.
    assert (HA : List.length A = (3 * p)%nat)
      by (unfold A; rewrite length_firstn; lia).
    rewrite Hsk.
    rewrite (copy_byte_middle src _ r x A _ _ H1) by lia.
    change (A ++ r :: y :: z :: skipn (3 * p + 3) dst)
      with (A ++ [r] ++ y :: z :: skipn (3 * p + 3) dst).
    rewrite app_assoc.
    rewrite (copy_byte_middle src _ g y (A ++ [r]) _ _ H2)
      by (rewrite length_app; simpl; lia).
    change ((A ++ [r]) ++ g :: z :: skipn (3 * p + 3) dst)
      with ((A ++ [r]) ++ [g] ++ z :: skipn (3 * p + 3) dst).
    rewrite app_assoc.
    rewrite (copy_byte_middle src _ b z ((A ++ [r]) ++ [g]) _ _ H3)
      by (rewrite !length_app; simpl; lia).
    replace (((A ++ [r]) ++ [g]) ++ b :: skipn (3 * p + 3) dst)
      with (firstn (3 * S p) (drop_first_of_four src) ++ skipn (3 * S p) dst).
    2:{ replace (3 * S p)%nat with (3 * p + 3)%nat by lia.
        rewrite H4. fold A. rewrite <- !app_assoc. reflexivity. }
    replace (4 * p + 4)%nat with (4 * S p)%nat by lia.
    replace (3 * p + 3)%nat with (3 * S p)%nat by lia.
    rewrite (IH (S p)) by lia.
    replace (S p + n)%nat with (p + S n)%nat by lia. reflexivity.
Qed.

Lemma in_int_true (z : Z) : INT_MIN <= z <= INT_MAX -> in_int z = true.
Proof.
  intros [H1 H2]. unfold in_int.
  apply andb_true_intro. split; apply Z.leb_le; assumption.
Qed.

Lemma in_region_true (z : Z) (m : list byte) :
  0 <= z <= size_of m -> in_region z m = true.
Proof.
  intros [H1 H2]. unfold in_region.
  apply andb_true_intro. split; apply Z.leb_le; assumption.
Qed.

Lemma converted_length (src dst : list byte) (n : nat) :
  (4 * n <= List.length src)%nat -> (3 * n <= List.length dst)%nat ->
  List.length (firstn (3 * n) (drop_first_of_four src) ++ skipn (3 * n) dst)
  = List.length dst.
Proof.
  intros Hs Hd. pose proof (drop_first_of_four_length n src Hs).
  rewrite length_app, length_firstn, length_skipn. lia.
Qed.

(** One row of the outer loop whose two products fit an [int] and whose
    two row pointers stay inside their regions. *)
Lemma convert_rows_step (src dst : list byte) (w rows y : nat) :
  Z.of_nat (4 * (w * y)) <= INT_MAX ->
  (4 * (w * y) <= List.length src)%nat ->
  (3 * (w * y) <= List.length dst)%nat ->
  convert_rows (S rows) (Z.of_nat y) (Z.of_nat w * 4) (Z.of_nat w * 3) w src dst
  = match convert_pixels w (4 * (w * y)) (3 * (w * y)) src dst with
    | inl f => inl (Access f)
    | inr dst' =>
        convert_rows rows (Z.of_nat (S y)) (Z.of_nat w * 4) (Z.of_nat w * 3)
          w src dst'
    end.
Proof.
  intros Hi Hs Hd. cbn [convert_rows].
  assert (Hmin : INT_MIN <= 0) by (unfold INT_MIN; lia).
  rewrite !in_int_true by nia.
  rewrite !in_region_true by (unfold size_of; nia).
  cbn [andb negb].
  replace (Z.to_nat (Z.of_nat y * (Z.of_nat w * 4))) with (4 * (w * y))%nat by nia.
  replace (Z.to_nat (Z.of_nat y * (Z.of_nat w * 3))) with (3 * (w * y))%nat by nia.
  replace (Z.of_nat y + 1) with (Z.of_nat (S y)) by lia.
  reflexivity.
Qed.

(** The outer loop, from row [y] on. *)
Lemma convert_rows_run (src dst : list byte) (w rows : nat) :
  forall y,
    Z.of_nat (4 * (w * (y + rows - 1))) <= INT_MAX ->
    (4 * (w * (y + rows)) <= List.length src)%nat ->
    (3 * (w * (y + rows)) <= List.length dst)%nat ->
    convert_rows rows (Z.of_nat y) (Z.of_nat w * 4) (Z.of_nat w * 3) w src
      (firstn (3 * (w * y)) (drop_first_of_four src) ++ skipn (3 * (w * y)) dst)
    = inr (firstn (3 * (w * (y + rows))) (drop_first_of_four src)
           ++ skipn (3 * (w * (y + rows))) dst).
Proof.
  induction rows as [|rows IH]; intros y Hi Hs Hd.
  - rewrite Nat.add_0_r. reflexivity.
  - rewrite convert_rows_step.
    2:{ replace (y + S rows - 1)%nat with (y + rows)%nat in Hi by lia. nia. }
    2:{ nia. }
    2:{ rewrite converted_length by nia. nia. }
    rewrite convert_pixels_run by nia.
    replace (w * y + w)%nat with (w * S y)%nat by lia.
    rewrite (IH (S y)).
    + replace (S y + rows)%nat with (y + S rows)%nat by lia. reflexivity.
    + replace (y + S rows - 1)%nat with (y + rows)%nat in Hi by lia.
      destruct rows as [|rows']; [|replace (S y + S rows' - 1)%nat with (y + S rows')%nat by lia; exact Hi].
      replace (S y + 0 - 1)%nat with y by lia.
      rewrite Nat.add_0_r in Hi. exact Hi.
    + replace (S y + rows)%nat with (y + S rows)%nat by lia. assumption.
    + replace (S y + rows)%nat with (y + S rows)%nat by lia. assumption.
Qed.

(** X1.  For [int] arguments that are not negative and whose products
    [width * 4] and [y * srcStride] (for every row [y] below [height])
    fit an [int]: when the source holds [4 * width * height] bytes and
    the destination [3 * width * height], the call succeeds and the head
    of the destination becomes the source with the first byte of every
    pixel left out; the bytes of the destination behind that are kept. *)
Theorem XRGB8888toRGB_drops_first_byte :
  forall (src dst : list byte) (width height : Z),
    0 <= width -> 0 <= height <= INT_MAX ->
    width * 4 <= INT_MAX ->
    (height - 1) * (width * 4) <= INT_MAX ->
    4 * width * height <= size_of src ->
    3 * width * height <= size_of dst ->
    XRGB8888toRGB src dst width height
    = inr (firstn (Z.to_nat (3 * width * height)) (drop_first_of_four src)
           ++ skipn (Z.to_nat (3 * width * height)) dst).
Proof.
  intros src dst width height Hw Hh Hs4 Hy Hs Hd.
  unfold XRGB8888toRGB, size_of in *.
  assert (Hmin : INT_MIN <= 0) by (unfold INT_MIN; lia).
  rewrite !in_int_true by lia. cbn [andb negb].
  replace width with (Z.of_nat (Z.to_nat width)) at 1 2 by lia.
  pose proof (convert_rows_run src dst (Z.to_nat width) (Z.to_nat height) 0) as H.
  rewrite !Nat.mul_0_r in H. cbn [firstn skipn app] in H.
  rewrite Nat.add_0_l in H.
  change (Z.of_nat 0) with 0 in H.
  rewrite H; [| nia | nia | nia].
  replace (Z.to_nat (3 * width * height))
    with (3 * (Z.to_nat width * Z.to_nat height))%nat by nia.
  reflexivity.
Qed.

Lemma XRGB8888toRGB_drops_first_byte_witness :
  XRGB8888toRGB xrgb_sample [xff; xff; xff; xff; xff; xff; xff] 2 1
  = inr (firstn (Z.to_nat (3 * 2 * 1)) (drop_first_of_four xrgb_sample)
         ++ skipn (Z.to_nat (3 * 2 * 1)) [xff; xff; xff; xff; xff; xff; xff]).
Proof.
  apply XRGB8888toRGB_drops_first_byte;
    try split; vm_compute; discriminate.
Defined.

Lemma convert_rows_no_pixels (src dst : list byte) (rows : nat) :
  forall y, in_int y = true -> in_int (y + Z.of_nat rows) = true ->
    convert_rows rows y 0 0 0 src dst = inr dst.
Proof.
  induction rows as [|rows IH]; intros y Hy Hr; [reflexivity|].
  cbn [convert_rows convert_pixels].
  rewrite !Z.mul_0_r.
  rewrite !in_region_true by (unfold size_of; lia).
  change (in_int 0) with true. cbn [andb negb].
  apply IH.
  - unfold in_int in *. apply andb_true_iff in Hy, Hr.
    rewrite !Z.leb_le in Hy, Hr.
    apply andb_true_intro. rewrite !Z.leb_le. lia.
  - replace (y + 1 + Z.of_nat rows) with (y + Z.of_nat (S rows)) by lia.
    exact Hr.
Qed.

(** X2.  For [int] arguments whose product [width * 4] fits an [int]:
    with a height that is not positive, with a width of zero, or with a
    negative width and one row, no pixel is converted: the call returns
    without touching either region, whatever their sizes. *)
Theorem XRGB8888toRGB_degenerate_size :
  forall (src dst : list byte) (width height : Z),
    INT_MIN <= width * 4 <= INT_MAX ->
    INT_MIN <= height <= INT_MAX ->
    height <= 0 \/ width = 0 \/ (width < 0 /\ height = 1) ->
    XRGB8888toRGB src dst width height = inr dst.
Proof.
  intros src dst width height Hw4 Hh Hcase. unfold XRGB8888toRGB.
  assert (Hmin : INT_MIN <= 0) by (unfold INT_MIN; lia).
  assert (Hmax : 0 <= INT_MAX) by (unfold INT_MAX; lia).
  rewrite !in_int_true by lia. cbn [andb negb].
  destruct Hcase as [Hle | [-> | [Hneg ->]]].
  - replace (Z.to_nat height) with 0%nat by lia. reflexivity.
  - cbn [Z.mul Z.to_nat]. apply convert_rows_no_pixels.
    + reflexivity.
    + apply in_int_true. lia.
  - replace (Z.to_nat width) with 0%nat by lia.
    change (Z.to_nat 1) with 1%nat.
    cbn [convert_rows convert_pixels].
    rewrite !Z.mul_0_l.
    rewrite !in_region_true by (unfold size_of; lia).
    reflexivity.
Qed.

Lemma XRGB8888toRGB_degenerate_size_witness :
  XRGB8888toRGB [] [x01; x02] (-3) 1 = inr [x01; x02].
Proof.
  apply XRGB8888toRGB_degenerate_size;
    [ split; vm_compute; discriminate
    | split; vm_compute; discriminate
    | right; right; split; reflexivity ].
Defined.

Lemma convert_pixels_app (src : list byte) (a b : nat) :
  forall s d dst,
    convert_pixels (a + b) s d src dst
    = match convert_pixels a s d src dst with
      | inl f => inl f
      | inr dst' => convert_pixels b (s + 4 * a) (d + 3 * a) src dst'
      end.
Proof.
  induction a as [|a IH]; intros s d dst.
  - cbn [Nat.add convert_pixels]. rewrite !Nat.mul_0_r, !Nat.add_0_r. reflexivity.
  - cbn [Nat.add convert_pixels].
    destruct (copy_byte src (s + 1) dst d) as [f|d1]; [reflexivity|].
    destruct (copy_byte src (s + 2) d1 (d + 1)) as [f|d2]; [reflexivity|].
    destruct (copy_byte src (s + 3) d2 (d + 2)) as [f|d3]; [reflexivity|].
    rewrite IH.
    replace (s + 4 + 4 * a)%nat with (s + 4 * S a)%nat by lia.
    replace (d + 3 + 3 * a)%nat with (d + 3 * S a)%nat by lia.
    reflexivity.
Qed.

Lemma convert_rows_app (src : list byte) (ss ds : Z) (w a b : nat) :
  forall y dst,
    convert_rows (a + b) y ss ds w src dst
    = match convert_rows a y ss ds w src dst with
      | inl f => inl f
      | inr dst' => convert_rows b (y + Z.of_nat a) ss ds w src dst'
      end.
Proof.
  induction a as [|a IH]; intros y dst.
  - cbn [Nat.add convert_rows]. rewrite Z.add_0_r. reflexivity.
  - cbn [Nat.add convert_rows].
    destruct (negb (in_int (y * ss) && in_int (y * ds))); [reflexivity|].
    destruct (negb (in_region (y * ss) src && in_region (y * ds) dst));
      [reflexivity|].
    destruct (convert_pixels w (Z.to_nat (y * ss)) (Z.to_nat (y * ds)) src dst)
      as [f|d1]; [reflexivity|].
    rewrite IH. replace (y + 1 + Z.of_nat a) with (y + Z.of_nat (S a)) by lia.
    reflexivity.
Qed.

(** The pixel that the source does not hold completely. *)
Lemma convert_pixels_short (src dst : list byte) (p n : nat) :
  (4 * p <= List.length src < 4 * p + 4)%nat ->
  (3 * p + 3 <= List.length dst)%nat ->
  convert_pixels (S n) (4 * p) (3 * p) src
    (firstn (3 * p) (drop_first_of_four src) ++ skipn (3 * p) dst)
  = inl ReadOutOfBounds.
Proof.
  intros Hs Hd. cbn [convert_pixels].
  destruct (skipn_three dst (3 * p) ltac:(lia)) as (x & y & z & Hsk).
  pose proof (drop_first_of_four_length p src ltac:(lia)) as Hlen.
  set (A := firstn (3 * p) (drop_first_of_four src)) in *.
  assert (HA : List.length A = (3 * p)%nat)
    by (unfold A; rewrite length_firstn; lia).
  rewrite Hsk.
  destruct (nth_error src (4 * p + 1)) as [r|] eqn:H1;
    [|unfold copy_byte; rewrite H1; reflexivity].
  rewrite (copy_byte_middle src _ r x A _ _ H1) by lia.
  change (A ++ r :: y :: z :: skipn (3 * p + 3) dst)
    with (A ++ [r] ++ y :: z :: skipn (3 * p + 3) dst).
  rewrite app_assoc.
  destruct (nth_error src (4 * p + 2)) as [g|] eqn:H2;
    [|unfold copy_byte; rewrite H2; reflexivity].
  rewrite (copy_byte_middle src _ g y (A ++ [r]) _ _ H2)
    by (rewrite length_app; simpl; lia).
  assert (H3 : nth_error src (4 * p + 3) = None)
    by (apply nth_error_None; lia).
  unfold copy_byte. rewrite H3. reflexivity.
Qed.

(** X3.  For positive [int] arguments whose products fit an [int]: the
    call reads [4 * width * height] bytes, so when the source is shorter
    than that (and the destination is large enough) it reads past the
    end of the source. *)
Theorem XRGB8888toRGB_short_source :
  forall (src dst : list byte) (width height : Z),
    0 < width -> 0 < height <= INT_MAX ->
    (height - 1) * (width * 4) <= INT_MAX ->
    width * 4 <= INT_MAX ->
    size_of src < 4 * width * height ->
    3 * width * height <= size_of dst ->
    XRGB8888toRGB src dst width height = inl (Access ReadOutOfBounds).
Proof.
  intros src dst width height Hw Hh Hy4 Hw4 Hs Hd.
  unfold XRGB8888toRGB, size_of in *.
  assert (Hmin : INT_MIN <= 0) by (unfold INT_MIN; lia).
  rewrite !in_int_true by lia. cbn [andb negb].
  set (W := Z.to_nat width). set (H := Z.to_nat height).
  replace width with (Z.of_nat W) by (unfold W; lia).
  assert (HwW : width = Z.of_nat W) by (unfold W; lia).
  assert (HhH : height = Z.of_nat H) by (unfold H; lia).
  set (L := List.length src) in *.
  assert (HW : (0 < W)%nat) by (unfold W; lia).
  assert (HL : (L < 4 * (W * H))%nat) by nia.
  assert (HD : (3 * (W * H) <= List.length dst)%nat) by nia.
  assert (HI : Z.of_nat (4 * (W * (H - 1))) <= INT_MAX) by nia.
  set (q := (L / 4)%nat).
  assert (Hq : (4 * q <= L < 4 * q + 4)%nat).
  { unfold q. pose proof (Nat.div_mod_eq L 4).
    pose proof (Nat.mod_upper_bound L 4 ltac:(lia)). lia. }
  set (y := (q / W)%nat). set (x := (q mod W)%nat).
  assert (Hyx : q = (W * y + x)%nat) by (unfold y, x; apply Nat.div_mod_eq).
  assert (Hx : (x < W)%nat) by (unfold x; apply Nat.mod_upper_bound; lia).
  assert (Hy : (y < H)%nat) by nia.
  replace H with (y + S (H - y - 1))%nat by lia.
  rewrite convert_rows_app.
  pose proof (convert_rows_run src dst W y 0) as Hrows.
  rewrite !Nat.mul_0_r in Hrows. cbn [firstn skipn app] in Hrows.
  rewrite Nat.add_0_l in Hrows. change (Z.of_nat 0) with 0 in Hrows.
  rewrite Hrows by nia. clear Hrows.
  rewrite Z.add_0_l.
  rewrite convert_rows_step; [| nia | nia | rewrite converted_length by nia; nia].
  match goal with
  | |- context [convert_pixels W ?s ?d src ?D] =>
      replace (convert_pixels W s d src D)
        with (convert_pixels (x + S (W - x - 1)) s d src D) by (f_equal; lia)
  end.
  rewrite convert_pixels_app.
  rewrite convert_pixels_run by nia.
  replace (4 * (W * y) + 4 * x)%nat with (4 * (W * y + x))%nat by lia.
  replace (3 * (W * y) + 3 * x)%nat with (3 * (W * y + x))%nat by lia.
  rewrite convert_pixels_short by nia. reflexivity.
Qed.

Lemma XRGB8888toRGB_short_source_witness :
  XRGB8888toRGB [x00; x11; x22; x33; x00; x44] [xff; xff; xff; xff; xff; xff] 2 1
  = inl (Access ReadOutOfBounds).
Proof.
  apply XRGB8888toRGB_short_source;
    try split; vm_compute; first [reflexivity | discriminate].
Defined.

(** ** The callback as a whole *)

Lemma for_each_app {A} (body : A -> M unit) (l1 l2 : list A) (w : world) :
  for_each (l1 ++ l2) body w
  = match for_each l1 body w with
    | Ok _ w' => for_each l2 body w'
    | Crash f w' => Crash f w'
    end.
Proof.
  revert w. induction l1 as [|x l1 IH]; intros w; [reflexivity|].
  cbn [app for_each]. unfold bind.
  destruct (body x w) as [[] w1|f w1]; [apply IH | reflexivity].
Qed.

Lemma for_each_planes (body : Plane -> M unit) (bufs : list FrameBuffer) (w : world) :
  for_each bufs (fun buffer => for_each (planes buffer) body) w
  = for_each (flat_map planes bufs) body w.
Proof.
  revert w. induction bufs as [|b bufs IH]; intros w; [reflexivity|].
  cbn [for_each flat_map]. rewrite for_each_app. unfold bind.
  destruct (for_each (planes b) body w) as [[] w1|f w1]; [apply IH | reflexivity].
Qed.

(** A completed request is the run over its planes followed by the two
    calls that hand it back. *)
Lemma requestComplete_complete (ok : bool) (request : Request) (w : world) :
  status request = RequestComplete ->
  requestComplete ok request w
  = match for_each (all_planes request) (publish_plane ok) w with
    | Ok _ w1 =>
        (emit (EvReuse (cookie request)) ;; emit (EvQueueRequest (cookie request)))%m w1
    | Crash f w1 => Crash f w1
    end.
Proof.
  intros Hs. unfold requestComplete. rewrite Hs. cbn [status_eqb negb].
  unfold bind at 1. rewrite for_each_planes. reflexivity.
Qed.

(** X4.  Every plane of a completed request overwrites the same store,
    so the last plane wins: when the callback returns, [bytes_used] is the
    clamped count of the last plane, the head of [frame] holds that many
    of its bytes, and the next tick of the pump pushes exactly those
    bytes. *)
Theorem last_plane_is_what_the_pump_pushes :
  forall (ok : bool) (request : Request) (w w' : world)
         (before : list Plane) (p : Plane) (flow : GstFlowReturn),
    status request = RequestComplete ->
    all_planes request = before ++ [p] ->
    requestComplete ok request w = Ok tt w' ->
    bytes_used w' = clamped p /\
    (exists fr, frame w' = Some fr /\
                firstn (Z.to_nat (clamped p)) fr
                = firstn (Z.to_nat (clamped p)) (data p)) /\
    (exists w'' b,
       push_frame flow w' = Ok (flow_is_ok flow) w'' /\
       pushed (trace w'') = pushed (trace w') ++ [b] /\
       buf_data b = firstn (Z.to_nat (clamped p)) (data p)).
Proof.
  intros ok request w w' before p flow Hs Hp Hrun.
  rewrite (requestComplete_complete ok request w Hs), Hp, for_each_app in Hrun.
  destruct (for_each before (publish_plane ok) w) as [[] w0|f w0]; [|discriminate].
  cbn [for_each] in Hrun. unfold bind at 1 in Hrun.
  pose proof (clamped_bounds p) as Hc.
  destruct (publish_plane_run ok p w0) as (Hbu & _ & _ & Hcase).
  destruct (publish_plane ok p w0) as [[] w1|f w1]; [|discriminate].
  cbn [final_world ret] in *.
  assert (Hfr : exists fr, frame w1 = Some fr /\ clamped p <= size_of fr /\
                           firstn (Z.to_nat (clamped p)) fr
                           = firstn (Z.to_nat (clamped p)) (data p)).
  { destruct (region_for ok p w0) as [fr0|].
    - destruct (Z.gtb_spec (clamped p) (size_of fr0)) as [Hgt|Hle];
        destruct Hcase as [Heq Hfr]; [discriminate|].
      eexists. split; [exact Hfr|]. split.
      + rewrite size_after_copy by lia. exact Hle.
      + apply firstn_after_copy. unfold size_of in *. lia.
    - destruct Hcase as [Heq _]. discriminate. }
  destruct Hfr as (fr & Hfr & Hle & Hhead).
  unfold bind in Hrun. cbn [emit] in Hrun. injection Hrun as <-.
  cbn [bytes_used frame].
  split; [exact Hbu|]. split; [exists fr; split; assumption|].
  match goal with
  | |- context [push_frame flow ?w2] =>
      destruct (push_frame_with_frame w2 fr flow Hfr
                  ltac:(cbn [bytes_used]; rewrite Hbu; exact Hle))
        as (w'' & Hpush & _ & _ & _ & _ & Htr)
  end.
  eexists w'', _. split; [exact Hpush|]. split.
  - rewrite Htr, pushed_app. cbn [pushed].
    destruct (flow_is_ok flow); reflexivity.
  - cbn [buf_data bytes_used]. rewrite Hbu.
    rewrite <- Hhead. reflexivity.
Qed.

Lemma last_plane_witness :
  requestComplete true two_plane_request initial_world
  = Ok tt (final_world (requestComplete true two_plane_request initial_world)) /\
  bytes_used (final_world (requestComplete true two_plane_request initial_world)) = 2 /\
  frame (final_world (requestComplete true two_plane_request initial_world))
  = Some [x51; x52; x30; x40] /\
  bytes_used (final_world (requestComplete true two_plane_request initial_world))
  = clamped {| bytesused := 2; data := [x51; x52] |}.
Proof.
  assert (H : requestComplete true two_plane_request initial_world
              = Ok tt (final_world (requestComplete true two_plane_request initial_world)))
    by (vm_compute; reflexivity).
  split; [exact H|]. split; [reflexivity|]. split; [reflexivity|].
  exact (proj1 (last_plane_is_what_the_pump_pushes true two_plane_request
                  initial_world _ [sample_plane]
                  {| bytesused := 2; data := [x51; x52] |} GST_FLOW_OK
                  eq_refl eq_refl H)).
Defined.

(** X5.  Publishing a plane succeeds exactly when a region is there to
    take it: with [frame] still null the [malloc] must succeed, and
    afterwards the clamped count must fit the region allocated for the
    first plane.  A refused [malloc] ends in a copy through the null
    pointer; a plane larger than the first allocation ends in a write past
    the end of the region. *)
Theorem publish_plane_outcome :
  forall (ok : bool) (p : Plane) (w : world),
    match frame w with
    | None =>
        if ok
        then exists w', publish_plane ok p w = Ok tt w'
        else exists w', publish_plane ok p w = Crash NullPointer w'
    | Some fr =>
        if clamped p >? size_of fr
        then exists w', publish_plane ok p w = Crash WriteOutOfBounds w' /\
                        frame w' = Some fr
        else exists w', publish_plane ok p w = Ok tt w'
    end.
Proof.
  intros ok p w. pose proof (clamped_bounds p) as Hc.
  destruct (publish_plane_run ok p w) as (_ & _ & _ & Hcase).
  unfold region_for in Hcase.
  destruct (frame w) as [fr|].
  - destruct (clamped p >? size_of fr); destruct Hcase as [Heq Hfr];
      eexists; first [split; eassumption | eassumption].
  - destruct ok; cbn [malloc] in Hcase.
    + rewrite size_of_fresh in Hcase by lia.
      destruct (Z.gtb_spec (clamped p) (clamped p)) as [Hgt|_]; [lia|].
      destruct Hcase as [Heq _]. eexists. exact Heq.
    + destruct Hcase as [Heq _]. eexists. exact Heq.
Qed.

(** X6.  Without a publication in between, two ticks push the same
    bytes, the second stamped one frame duration after the first. *)
Theorem ticks_replay_the_stored_frame :
  forall (w : world) (fr : list byte) (flow : GstFlowReturn),
    frame w = Some fr -> bytes_used w <= size_of fr ->
    exists w1 w2 b1 b2,
      push_frame GST_FLOW_OK w = Ok true w1 /\
      push_frame flow w1 = Ok (flow_is_ok flow) w2 /\
      pushed (trace w2) = pushed (trace w) ++ [b1; b2] /\
      buf_data b1 = buf_data b2 /\
      buf_pts b2 = wrap64 (buf_pts b1 + GST_SECOND / FPS).
Proof.
  intros w fr flow Hf Hle.
  destruct (push_frame_with_frame w fr GST_FLOW_OK Hf Hle)
    as (w1 & Hp1 & Hf1 & Hb1 & _ & Ht1 & Htr1).
  rewrite Hf in Hf1. rewrite <- Hb1 in Hle.
  destruct (push_frame_with_frame w1 fr flow Hf1 Hle)
    as (w2 & Hp2 & _ & _ & _ & _ & Htr2).
  exists w1, w2.
  exists (mkBuffer (firstn (Z.to_nat (bytes_used w)) fr) (timestamp w)
                   (GST_SECOND / FPS)).
  exists (mkBuffer (firstn (Z.to_nat (bytes_used w1)) fr) (timestamp w1)
                   (GST_SECOND / FPS)).
  split; [exact Hp1|]. split; [exact Hp2|]. split; [|split].
  - rewrite Htr2, Htr1. cbn [flow_is_ok]. rewrite !pushed_app. cbn [pushed].
    rewrite <- app_assoc. destruct (flow_is_ok flow); reflexivity.
  - cbn [buf_data]. rewrite Hb1. reflexivity.
  - cbn [buf_pts]. exact Ht1.
Qed.

Lemma ticks_replay_witness :
  exists w1 w2 b1 b2,
    push_frame GST_FLOW_OK streaming_world = Ok true w1 /\
    push_frame GST_FLOW_OK w1 = Ok (flow_is_ok GST_FLOW_OK) w2 /\
    pushed (trace w2) = pushed (trace streaming_world) ++ [b1; b2] /\
    buf_data b1 = buf_data b2 /\
    buf_pts b2 = wrap64 (buf_pts b1 + GST_SECOND / FPS).
Proof.
  apply (ticks_replay_the_stored_frame streaming_world [x10; x20; x30; x40]).
  - reflexivity.
  - vm_compute. discriminate.
Defined.

(** ** What each callback leaves alone *)

Lemma flows_app (t1 t2 : list event) : flows (t1 ++ t2) = flows t1 ++ flows t2.
Proof.
  induction t1 as [|e t1 IH]; simpl; [reflexivity|].
  destruct e; simpl; rewrite ?IH; reflexivity.
Qed.

Lemma requeues_app (t1 t2 : list event) :
  requeues (t1 ++ t2) = requeues t1 ++ requeues t2.
Proof.
  induction t1 as [|e t1 IH]; simpl; [reflexivity|].
  destruct e; simpl; rewrite ?IH; reflexivity.
Qed.

Lemma pushed_nil_flows e : pushed [e] = [] -> flows [e] = [].
Proof. destruct e; simpl; intros H; try reflexivity. discriminate H. Qed.

Lemma pump_emit ts armed bufs fl e :
  pushed [e] = [] ->
  keeps (pump_is ts armed bufs fl) (pump_is ts armed bufs fl) (emit e).
Proof.
  intros He w (H1 & H2 & H3 & H4). unfold pump_is.
  cbn [emit timestamp timer_armed trace].
  rewrite flows_app, pushed_app, (pushed_nil_flows e He), He, !app_nil_r. auto.
Qed.

Lemma publish_plane_keeps_pump ts armed bufs fl ok p :
  keeps (pump_is ts armed bufs fl) (pump_is ts armed bufs fl) (publish_plane ok p).
Proof.
  unfold publish_plane.
  keeps_walk ltac:(first [apply pump_emit; reflexivity | same_prim]).
Qed.

Lemma requestComplete_keeps_pump ts armed bufs fl ok r :
  keeps (pump_is ts armed bufs fl) (pump_is ts armed bufs fl) (requestComplete ok r).
Proof.
  apply requestComplete_keeps; intros;
    first [apply pump_emit; assumption | apply publish_plane_keeps_pump].
Qed.

Lemma sigint_handler_keeps_pump ts armed bufs fl :
  keeps (pump_is ts armed bufs fl) (pump_is ts armed bufs fl) sigint_handler.
Proof.
  unfold sigint_handler.
  keeps_walk ltac:(first [apply pump_emit; reflexivity | same_prim]).
Qed.

Lemma pump_is_now (w : world) :
  pump_is (timestamp w) (timer_armed w) (pushed (trace w)) (flows (trace w)) w.
Proof. repeat split. Qed.

(** X7.  The two callbacks work on disjoint parts of the state.  The
    completion callback, however it ends, leaves the clock, the timer and
    the buffers pushed so far as they were; a tick of the pump, however
    it ends, leaves [frame] and [bytes_used] as they were and hands no
    request back to the camera. *)
Theorem callbacks_touch_disjoint_state :
  forall (ok : bool) (request : Request) (flow : GstFlowReturn) (w : world),
    let wc := final_world (requestComplete ok request w) in
    let wp := final_world (push_frame flow w) in
    (timestamp wc = timestamp w /\ timer_armed wc = timer_armed w /\
     pushed (trace wc) = pushed (trace w)) /\
    (frame wp = frame w /\ bytes_used wp = bytes_used w /\
     requeues (trace wp) = requeues (trace w)).
Proof.
  intros ok request flow w wc wp. split.
  - pose proof (requestComplete_keeps_pump _ _ _ _ ok request w (pump_is_now w)) as H.
    unfold wc. destruct (requestComplete ok request w) as [[] w'|f w'];
      destruct H as (H1 & H2 & H3 & _); cbn [final_world]; auto.
  - unfold wp, push_frame, bind, get.
    destruct (frame w) as [fr|] eqn:Hf; [|cbn; auto].
    match goal with
    | |- context [memcpy ?d fr ?n] => destruct (memcpy d fr n)
    end; [cbn; auto|].
    cbn [set_timestamp emit]. destruct (flow_is_ok flow);
      cbn [ret emit final_world frame bytes_used trace];
      rewrite ?requeues_app; cbn [requeues];
      rewrite ?app_nil_r; auto.
Qed.

(** ** The pump over a whole run *)

Lemma main_loop_iterate_keeps_callbacks (I E : world -> Prop) (evs : list loop_event) :
  (forall flow, keeps I E (dispatch_timeout flow)) ->
  (forall ok r, keeps I E (requestComplete ok r)) ->
  keeps I E sigint_handler ->
  keeps I E (main_loop_iterate evs).
Proof.
  intros Ht Hc Hs. induction evs as [|e evs IH]; simpl.
  - keeps_walk idtac.
  - apply keeps_bind; [apply keeps_get | intros running].
    destruct (negb running); [apply keeps_ret|].
    destruct e as [flow|ok r|].
    + apply keeps_bind; [apply Ht | intros _; exact IH].
    + apply keeps_bind; [apply Hc | intros _; exact IH].
    + apply keeps_bind; [apply keeps_get | intros inst].
      destruct inst; [|apply keeps_ret].
      apply keeps_bind; [exact Hs | intros _; exact IH].
Qed.

Lemma dispatch_timeout_disarmed (flow : GstFlowReturn) (w : world) :
  timer_armed w = false -> dispatch_timeout flow w = Ok tt w.
Proof. intros H. unfold dispatch_timeout, bind, get. rewrite H. reflexivity. Qed.

(** X8.  Nothing that runs in the main loop attaches the timer again:
    from a state whose timer has been removed, whatever events follow, no
    further buffer is pushed and the clock stands still. *)
Theorem removed_timer_stays_removed :
  forall (evs : list loop_event) (w : world),
    timer_armed w = false ->
    let w' := final_world (main_loop_iterate evs w) in
    timer_armed w' = false /\
    pushed (trace w') = pushed (trace w) /\
    timestamp w' = timestamp w.
Proof.
  intros evs w Hoff w'.
  assert (Hk : keeps (pump_is (timestamp w) false (pushed (trace w)) (flows (trace w)))
                     (pump_is (timestamp w) false (pushed (trace w)) (flows (trace w)))
                     (main_loop_iterate evs)).
  { apply main_loop_iterate_keeps_callbacks.
    - intros flow w0 H0. pose proof H0 as (_ & Ha & _).
      rewrite (dispatch_timeout_disarmed flow w0 Ha). exact H0.
    - intros. apply requestComplete_keeps_pump.
    - apply sigint_handler_keeps_pump. }
  pose proof (pump_is_now w) as Hnow. rewrite Hoff in Hnow.
  specialize (Hk w Hnow). unfold w'.
  destruct (main_loop_iterate evs w); destruct Hk as (H1 & H2 & H3 & _);
    cbn [final_world]; auto.
Qed.

Lemma removed_timer_witness :
  let w' := final_world
              (main_loop_iterate
                 [Timeout GST_FLOW_OK; Completed true sample_request; Timeout GST_FLOW_OK]
                 stopped_pump_world) in
  timer_armed w' = false /\
  pushed (trace w') = pushed (trace stopped_pump_world) /\
  timestamp w' = timestamp stopped_pump_world.
Proof.
  apply (removed_timer_stays_removed
           [Timeout GST_FLOW_OK; Completed true sample_request; Timeout GST_FLOW_OK]
           stopped_pump_world).
  reflexivity.
Defined.

Lemma answered_ok_snoc l r :
  answered_ok l -> r = GST_FLOW_OK -> answered_ok (l ++ [r]).
Proof.
  intros Hl Hr. unfold answered_ok. apply Forall_app. split; [exact Hl|].
  constructor; [exact Hr | constructor].
Qed.

Lemma flow_is_ok_true r : flow_is_ok r = true -> r = GST_FLOW_OK.
Proof. destruct r; simpl; intros H; first [reflexivity | discriminate H]. Qed.

Lemma dispatch_timeout_keeps_one_failure flow :
  keeps one_failure_at_most one_failure_at_most (dispatch_timeout flow).
Proof.
  intros w HJ. pose proof HJ as [Harm Hlast].
  unfold dispatch_timeout, bind at 1, get at 1.
  destruct (timer_armed w) eqn:Ha; [|exact HJ].
  specialize (Harm eq_refl).
  unfold bind, push_frame, bind, get.
  destruct (frame w) as [fr|] eqn:Hf.
  - match goal with
    | |- context [memcpy ?d fr ?n] => destruct (memcpy d fr n)
    end; [exact HJ|].
    cbn [set_timestamp emit].
    destruct (flow_is_ok flow) eqn:Hok;
      cbn [ret emit set_timer_armed]; unfold one_failure_at_most;
      cbn [timer_armed trace]; rewrite !flows_app; cbn [flows];
      rewrite ?app_nil_r.
    + split; [intros _|rewrite removelast_last; exact Harm].
      apply answered_ok_snoc; [exact Harm | apply flow_is_ok_true; exact Hok].
    + split; [discriminate|]. rewrite removelast_last. exact Harm.
  - cbn [ret set_timer_armed]. unfold one_failure_at_most.
    cbn [timer_armed trace]. split; [intros _; exact Harm | exact Hlast].
Qed.

Lemma keeps_one_failure_of_pump {A} (m : M A) :
  (forall ts armed bufs fl,
     keeps (pump_is ts armed bufs fl) (pump_is ts armed bufs fl) m) ->
  keeps one_failure_at_most one_failure_at_most m.
Proof.
  intros H w HJ. specialize (H _ _ _ _ w (pump_is_now w)).
  destruct (m w); destruct H as (_ & Ha & _ & Hf);
    unfold one_failure_at_most; rewrite Ha, Hf; exact HJ.
Qed.

Lemma flows_emit e : pushed [e] = [] ->
  keeps (fun w => flows (trace w) = []) (fun w => flows (trace w) = []) (emit e).
Proof.
  intros He w H. cbn [emit trace].
  rewrite flows_app, H, (pushed_nil_flows e He). reflexivity.
Qed.

(** Wherever a run of [main] ends, every push but the last one was
    answered OK. *)
Lemma main_answers_ok_but_last (env : Env) (evs : list loop_event) :
  answered_ok
    (removelast (flows (trace (final_world (main env evs initial_world))))).
Proof.
  rewrite main_unfold.
  pose proof (main_startup_keeps _ _
                ltac:(intros; apply flows_emit; assumption)
                ltac:(intros; apply flows_emit; reflexivity)
                ltac:(intros; same_prim) ltac:(intros; same_prim)
                ltac:(intros; same_prim) ltac:(intros; same_prim)
                env initial_world eq_refl) as Hst.
  cbv beta in Hst.
  destruct (main_startup env initial_world) as [[code|] w1|f w1];
    cbn [final_world]; try (rewrite Hst; constructor).
  assert (Hloop : keeps one_failure_at_most one_failure_at_most (main_loop_iterate evs)).
  { apply main_loop_iterate_keeps_callbacks.
    - apply dispatch_timeout_keeps_one_failure.
    - intros. apply keeps_one_failure_of_pump. intros.
      apply requestComplete_keeps_pump.
    - apply keeps_one_failure_of_pump. intros. apply sigint_handler_keeps_pump. }
  match goal with
  | |- context [main_loop_iterate evs ?w2] =>
      assert (H2 : one_failure_at_most w2)
        by (unfold one_failure_at_most; cbn; rewrite flows_app, Hst;
            split; [intros _|]; constructor);
      specialize (Hloop w2 H2);
      destruct (main_loop_iterate evs w2) as [[] w3|f w3]
  end; cbn [final_world]; try exact (proj2 Hloop).
  unfold main_cleanup, bind. cbn [emit ret final_world trace].
  rewrite !flows_app. cbn [flows]. rewrite !app_nil_r. exact (proj2 Hloop).
Qed.

(** X9.  In every execution each push but the last one was answered OK:
    a push with any other answer is the last push of the run. *)
Theorem a_failed_push_is_the_last :
  forall (env : Env) (evs : list loop_event),
    answered_ok
      (removelast (flows (trace (final_world (main env evs initial_world))))).
Proof. exact main_answers_ok_but_last. Qed.

(** ** The clock of the successful pushes *)

Lemma successful_app (t1 t2 : list event) :
  successful (t1 ++ t2) = successful t1 ++ successful t2.
Proof.
  induction t1 as [|e t1 IH]; simpl; [reflexivity|].
  destruct e as [| | | |b r| | | | | | | | | | | | | | | | | | | | | | | | | | |];
    simpl; rewrite ?IH; try reflexivity.
  destruct r; simpl; rewrite ?IH; reflexivity.
Qed.

(** While every push was answered OK, the successful pushes are all the
    pushes. *)
Lemma successful_all_ok (t : list event) :
  answered_ok (flows t) -> successful t = pushed t.
Proof.
  induction t as [|e t IH]; intros H; [reflexivity|].
  destruct e as [| | | |b r| | | | | | | | | | | | | | | | | | | | | | | | | | |];
    cbn [flows successful pushed] in *; try (apply IH; exact H).
  inversion H as [|x l Hx Hl]; subst. f_equal. apply IH. exact Hl.
Qed.

(** When every push but the last was answered OK, the successful pushes
    are all the pushes, or all but the last. *)
Lemma successful_but_last (t : list event) :
  answered_ok (removelast (flows t)) ->
  exists refused,
    pushed t = successful t ++ refused /\ (List.length refused <= 1)%nat.
Proof.
  induction t as [|e t IH] using rev_ind; intros H.
  - exists []. split; [reflexivity | simpl; lia].
  - rewrite flows_app in H. rewrite pushed_app, successful_app.
    destruct e as [| | | |b r| | | | | | | | | | | | | | | | | | | | | | | | | | |];
      cbn [flows pushed successful] in *; rewrite ?app_nil_r in *;
      try (apply IH; exact H).
    rewrite removelast_last in H.
    rewrite (successful_all_ok t H).
    destruct r; cbn [successful].
    1: exists []; rewrite app_nil_r; split; [reflexivity | simpl; lia].
    all: exists [b]; rewrite app_nil_r; split; [reflexivity | simpl; lia].
Qed.

(** C1.  The clock of [push_frame] starts at 0 and the frame duration is
    [10^9 / FPS] nanoseconds with [FPS = 30].  In every execution the
    successful pushes are all the pushes of the run but possibly the
    last, refused one; the k-th successful push carries the stamp
    [k * (10^9 / FPS)], taken in the 64-bit counter (and so does the k-th
    push, successful or not).  As long as the stamps fit that counter,
    the stamps of consecutive successful pushes differ by exactly
    [10^9 / FPS] nanoseconds and strictly increase. *)
Theorem pts_strictly_increasing_by_frame_duration :
  forall (env : Env) (evs : list loop_event),
    let w := final_world (main env evs initial_world) in
    let bufs := pushed (trace w) in
    let ok_bufs := successful (trace w) in
    timestamp initial_world = 0 /\
    GST_SECOND / FPS = 10 ^ 9 / 30 /\
    (exists refused,
       bufs = ok_bufs ++ refused /\ (List.length refused <= 1)%nat) /\
    (forall k b, nth_error ok_bufs k = Some b ->
       buf_pts b = wrap64 (Z.of_nat k * (GST_SECOND / FPS))) /\
    (forall k b, nth_error bufs k = Some b ->
       buf_pts b = wrap64 (Z.of_nat k * (GST_SECOND / FPS))) /\
    (Z.of_nat (List.length ok_bufs) * (GST_SECOND / FPS) <= 2 ^ 64 ->
     forall k b b',
       nth_error ok_bufs k = Some b -> nth_error ok_bufs (S k) = Some b' ->
       buf_pts b = Z.of_nat k * (GST_SECOND / FPS) /\
       buf_pts b' = buf_pts b + GST_SECOND / FPS /\
       buf_pts b < buf_pts b').
Proof.
  intros env evs w bufs ok_bufs.
  assert (Hinv : pts_inv w).
  { pose proof (main_keeps_pts env evs initial_world pts_inv_initial) as H.
    unfold w, final_world. destruct (main env evs initial_world); exact H. }
  destruct Hinv as [Hmap _]. fold bufs in Hmap.
  destruct (successful_but_last (trace w) (main_answers_ok_but_last env evs))
    as (refused & Hsplit & Hlen).
  fold bufs ok_bufs in Hsplit.
  assert (Hin : forall k b, nth_error ok_bufs k = Some b -> nth_error bufs k = Some b).
  { intros k b Hb. rewrite Hsplit, nth_error_app1; [exact Hb|].
    apply nth_error_Some. rewrite Hb. discriminate. }
  split; [reflexivity|]. split; [reflexivity|].
  split; [exists refused; split; assumption|].
  split; [|split].
  - intros k b Hb. exact (proj1 (stamps_nth _ _ _ Hmap k b (Hin k b Hb))).
  - intros k b Hb. exact (proj1 (stamps_nth _ _ _ Hmap k b Hb)).
  - intros Hfit k b b' Hb Hb'.
    assert (Hlt : (S k < List.length ok_bufs)%nat)
      by (apply nth_error_Some; rewrite Hb'; discriminate).
    destruct (stamps_nth _ _ _ Hmap k b (Hin k b Hb)) as [Hp _].
    destruct (stamps_nth _ _ _ Hmap (S k) b' (Hin _ _ Hb')) as [Hp' _].
    rewrite Hp, Hp'. unfold wrap64.
    change (GST_SECOND / FPS) with 33333333 in *.
    rewrite !Z.mod_small by lia. lia.
Qed.

Lemma pts_strictly_increasing_witness :
  let w := final_world (main sample_env refused_push_events initial_world) in
  let bufs := pushed (trace w) in
  let ok_bufs := successful (trace w) in
  map buf_pts bufs = [0; 33333333; 66666666] /\
  map buf_pts ok_bufs = [0; 33333333] /\
  (forall k b b',
     nth_error ok_bufs k = Some b -> nth_error ok_bufs (S k) = Some b' ->
     buf_pts b = Z.of_nat k * (GST_SECOND / FPS) /\
     buf_pts b' = buf_pts b + GST_SECOND / FPS /\
     buf_pts b < buf_pts b').
Proof.
  intros w bufs ok_bufs.
  split; [vm_compute; reflexivity|]. split; [vm_compute; reflexivity|].
  apply (proj2 (proj2 (proj2 (proj2 (proj2
           (pts_strictly_increasing_by_frame_duration
              sample_env refused_push_events)))))).
  vm_compute. discriminate.
Defined.

(** ** Start-up *)

Lemma create_requests_keeps_calls (I E : world -> Prop) :
  (forall c, keeps I E (emit (EvCreateRequest c))) ->
  (forall c, keeps I E (emit (EvAddBuffer c))) ->
  (forall m, keeps I E (emit (EvCerr m))) ->
  forall bufs i, keeps I E (create_requests i bufs).
Proof.
  intros H1 H2 H3. induction bufs as [|[created added] rest IH]; intros i; simpl.
  - apply keeps_ret.
  - keeps_walk ltac:(first [apply H1 | apply H2 | apply H3 | apply IH]).
Qed.

(** Walks through [main_startup]: a case split on every answer of the
    environment, [step] for the calls in between, [at_ret] where it
    returns and [at_tail] for the calls after the source was found. *)
Ltac startup_walk at_ret at_tail step :=
  repeat (cbv beta; cbn [negb andb fst];
    match goal with
    | |- hoare _ (ret _) _ _ => solve [at_ret]
    | |- hoare _ (bind (set_g_appsrc _) _) _ _ => solve [at_tail]
    | |- hoare ?P (bind _ _) _ _ =>
        eapply hoare_bind with (Q := fun _ => P);
        [ match goal with
          | |- hoare ?P0 ?m0 _ ?E0 => change (keeps P0 E0 m0)
          end; solve [step]
        | intros ]
    | |- hoare _ (if negb ?c then _ else _) _ _ => destruct c
    | |- hoare _ (if ?c then _ else _) _ _ => destruct c
    | |- hoare _ (match ?c with _ => _ end) _ _ => destruct c
    end).

Ltac no_crash_step :=
  unfold unref_globals;
  keeps_walk ltac:(first
    [ apply create_requests_keeps_calls; intros; intros ? ?; exact I
    | intros ? ?; exact I ]).

(** Start-up never faults, and it leaves through the main loop or with
    EXIT_FAILURE according to [startup_ok]. *)
Lemma main_startup_result (env : Env) :
  hoare (fun _ => True) (main_startup env)
        (fun r _ => r = if startup_ok env then None else Some EXIT_FAILURE)
        (fun _ => False).
Proof.
  unfold main_startup, startup_ok.
  startup_walk ltac:(intros ? ?; reflexivity) fail no_crash_step.
Qed.


Lemma idle_emit (E : world -> Prop) e :
  pushed [e] = [] -> is_streaming e = false -> keeps idle E (emit e).
Proof.
  intros H1 H2 w (Ha & Hb & Hd & He). unfold idle.
  cbn [emit timer_armed g_appsrc trace].
  rewrite pushed_app, H1, app_nil_r.
  repeat split; try assumption.
  apply forallb_snoc; [exact He | rewrite H2; reflexivity].
Qed.

Ltac idle_step :=
  unfold unref_globals;
  keeps_walk ltac:(first
    [ apply create_requests_keeps_calls; intros; apply idle_emit; reflexivity
    | apply idle_emit; reflexivity
    | same_prim ]).

(** Wherever start-up returns, nothing streams yet. *)
Lemma main_startup_exits_idle (env : Env) :
  hoare idle (main_startup env)
        (fun r w => match r with
                    | Some code => code = EXIT_FAILURE /\ idle w
                    | None => True
                    end)
        (fun _ => False).
Proof.
  unfold main_startup.
  startup_walk ltac:(intros ? ?; split; [reflexivity | assumption])
               ltac:(intros ? ?; exact I) idle_step.
Qed.

Lemma idle_initial : idle initial_world.
Proof. repeat split. Qed.

(** X11.  [main] returns only with EXIT_FAILURE, and only from start-up:
    when it returns, the pipeline was never set to Playing, the timer of
    the pump was never attached, the main loop was never entered, and
    no buffer was pushed. *)
Theorem main_returns_only_failure :
  forall (env : Env) (evs : list loop_event) (code : Z) (w : world),
    main env evs initial_world = Ok (Exited code) w ->
    code = EXIT_FAILURE /\
    timer_armed w = false /\ g_appsrc w = false /\
    pushed (trace w) = [] /\
    ~ In (EvSetState true) (trace w) /\
    ~ In EvMainLoopRun (trace w).
Proof.
  intros env evs code w Hrun. rewrite main_unfold in Hrun.
  pose proof (main_startup_exits_idle env initial_world idle_initial) as Hidle.
  pose proof (main_startup_keeps_startup_inv env initial_world startup_inv_initial)
    as Hst.
  destruct (main_startup env initial_world) as [[c|] w1|f w1]; [| |discriminate].
  - injection Hrun as <- <-. destruct Hidle as (Hc & Ha & Hb & Hp & Hs).
    repeat split; try assumption.
    + intros Hin. rewrite forallb_forall in Hs. specialize (Hs _ Hin). discriminate Hs.
    + intros Hin. rewrite forallb_forall in Hs. specialize (Hs _ Hin). discriminate Hs.
  - pose proof (main_loop_iterate_never_quits evs _ (loop_inv_on_entry w1 Hst))
      as Hloop.
    destruct (main_loop_iterate evs _) as [x w3|f w3]; [|discriminate].
    destruct Hloop as (Hx & _). destruct x; [congruence | discriminate | discriminate].
Qed.

Lemma main_returns_only_failure_witness :
  main no_camera_env [] initial_world
  = Ok (Exited EXIT_FAILURE) (final_world (main no_camera_env [] initial_world)) /\
  EXIT_FAILURE = EXIT_FAILURE /\
  timer_armed (final_world (main no_camera_env [] initial_world)) = false /\
  g_appsrc (final_world (main no_camera_env [] initial_world)) = false /\
  pushed (trace (final_world (main no_camera_env [] initial_world))) = [] /\
  ~ In (EvSetState true) (trace (final_world (main no_camera_env [] initial_world))) /\
  ~ In EvMainLoopRun (trace (final_world (main no_camera_env [] initial_world))).
Proof.
  assert (H : main no_camera_env [] initial_world
              = Ok (Exited EXIT_FAILURE)
                   (final_world (main no_camera_env [] initial_world)))
    by (vm_compute; reflexivity).
  split; [exact H|].
  exact (main_returns_only_failure no_camera_env [] EXIT_FAILURE _ H).
Defined.

Ltac camera_prim :=
  let w := fresh "w" in let H := fresh "H" in let Hc := fresh "Hc" in
  intros w H Hc;
  first [ discriminate Hc
        | cbn [emit trace]; apply forallb_snoc; [exact (H Hc) | reflexivity]
        | exact (H Hc) ].

Ltac camera_step :=
  unfold unref_globals;
  keeps_walk ltac:(first
    [ apply create_requests_keeps_calls; intros; camera_prim
    | camera_prim ]).

(** Once the camera runs, start-up makes none of the calls that give it
    back. *)
Lemma main_startup_keeps_camera (env : Env) :
  hoare (fun w => camera_started env = true ->
                  forallb (fun e => negb (is_camera_release e)) (trace w) = true)
        (main_startup env)
        (fun _ w => camera_started env = true ->
                    forallb (fun e => negb (is_camera_release e)) (trace w) = true)
        (fun _ => True).
Proof.
  unfold main_startup, camera_started.
  startup_walk ltac:(intros ? ?; assumption) fail camera_step.
Qed.

(** X12.  When the camera has been started and the pipeline then cannot
    be built (the launch line is refused or the source is not found),
    [main] returns EXIT_FAILURE without stopping the camera, releasing
    it or stopping the camera manager. *)
Theorem pipeline_failure_leaves_camera_running :
  forall (env : Env),
    camera_started env = true ->
    parse_launch env && get_by_name env = false ->
    exists w,
      main_startup env initial_world = Ok (Some EXIT_FAILURE) w /\
      ~ In EvCameraStop (trace w) /\
      ~ In EvCameraRelease (trace w) /\
      ~ In EvCamManagerStop (trace w).
Proof.
  intros env Hcam Hpipe.
  pose proof (main_startup_result env initial_world I) as Hres.
  pose proof (main_startup_keeps_camera env initial_world (fun _ => eq_refl)) as Hrel.
  assert (Hok : startup_ok env = false).
  { change (startup_ok env)
      with (camera_started env && parse_launch env && get_by_name env).
    rewrite Hcam, <- andb_assoc. exact Hpipe. }
  rewrite Hok in Hres.
  destruct (main_startup env initial_world) as [r w|f w]; [|contradiction].
  subst r. exists w. split; [reflexivity|].
  specialize (Hrel Hcam). rewrite forallb_forall in Hrel.
  repeat split; intros Hin; specialize (Hrel _ Hin); discriminate Hrel.
Qed.

Lemma pipeline_failure_witness :
  exists w,
    main_startup no_pipeline_env initial_world = Ok (Some EXIT_FAILURE) w /\
    ~ In EvCameraStop (trace w) /\
    ~ In EvCameraRelease (trace w) /\
    ~ In EvCamManagerStop (trace w).
Proof.
  apply (pipeline_failure_leaves_camera_running no_pipeline_env); reflexivity.
Defined.

(** ** Handing requests back *)

Lemma requeues_emit (l : list Z) e :
  requeues [e] = [] ->
  keeps (fun w => requeues (trace w) = l) (fun w => requeues (trace w) = l) (emit e).
Proof.
  intros He w H. cbn [emit trace]. rewrite requeues_app, He, app_nil_r. exact H.
Qed.

Lemma publish_plane_keeps_requeues (l : list Z) ok p :
  keeps (fun w => requeues (trace w) = l) (fun w => requeues (trace w) = l)
        (publish_plane ok p).
Proof.
  unfold publish_plane.
  keeps_walk ltac:(first [apply requeues_emit; reflexivity | same_prim]).
Qed.

(** X13.  A completed request whose copies all stay inside their
    regions is handed back to the camera exactly once, by the last two
    calls of the callback, after all its planes were copied. *)
Theorem completed_request_is_requeued_once :
  forall (ok : bool) (request : Request) (w w' : world),
    status request = RequestComplete ->
    requestComplete ok request w = Ok tt w' ->
    requeues (trace w') = requeues (trace w) ++ [cookie request] /\
    exists t, trace w' = t ++ [EvReuse (cookie request);
                               EvQueueRequest (cookie request)].
Proof.
  intros ok request w w' Hs Hrun.
  rewrite (requestComplete_complete ok request w Hs) in Hrun.
  pose proof (keeps_for_each _ _ (all_planes request) (publish_plane ok)
                (publish_plane_keeps_requeues (requeues (trace w)) ok)
                w eq_refl) as H.
  destruct (for_each (all_planes request) (publish_plane ok) w) as [[] w1|f w1];
    [|discriminate Hrun].
  unfold bind in Hrun. cbn [emit] in Hrun. injection Hrun as <-.
  cbn [trace]. split.
  - rewrite !requeues_app, H. cbn [requeues]. rewrite app_nil_r. reflexivity.
  - exists (trace w1). rewrite <- app_assoc. reflexivity.
Qed.

Lemma completed_request_witness :
  requestComplete true sample_request first_frame_world
  = Ok tt (final_world (requestComplete true sample_request first_frame_world)) /\
  requeues (trace (final_world (requestComplete true sample_request first_frame_world)))
  = requeues (trace first_frame_world) ++ [cookie sample_request] /\
  exists t,
    trace (final_world (requestComplete true sample_request first_frame_world))
    = t ++ [EvReuse (cookie sample_request);
            EvQueueRequest (cookie sample_request)].
Proof.
  assert (H : requestComplete true sample_request first_frame_world
              = Ok tt (final_world
                         (requestComplete true sample_request first_frame_world)))
    by (vm_compute; reflexivity).
  split; [exact H|].
  exact (completed_request_is_requeued_once true sample_request first_frame_world
           _ eq_refl H).
Defined.

(** ** The interrupt handler, were it installed *)

(** What a tick pushes depends on the store, the clock and the pushes so
    far, and on nothing else. *)
Lemma push_frame_reads (flow : GstFlowReturn) (w1 w2 : world) :
  frame w1 = frame w2 -> bytes_used w1 = bytes_used w2 ->
  timestamp w1 = timestamp w2 -> pushed (trace w1) = pushed (trace w2) ->
  pushed (trace (final_world (push_frame flow w1)))
  = pushed (trace (final_world (push_frame flow w2))).
Proof.
  intros Hf Hb Ht Hp. unfold push_frame, bind, get. rewrite Hf.
  destruct (frame w2) as [fr|]; [|exact Hp].
  cbv beta. rewrite Hb.
  match goal with
  | |- context [memcpy ?d fr ?n] => destruct (memcpy d fr n)
  end; [exact Hp|].
  cbv beta. rewrite Ht. cbn [set_timestamp emit].
  destruct (flow_is_ok flow); cbn [ret emit final_world trace];
    rewrite !pushed_app, Hp; reflexivity.
Qed.

(** X14.  The interrupt handler clears [g_running] and, when the source
    exists, sends one end-of-stream; it does nothing else.  The timer
    stays attached and the loop keeps running, and since [push_frame]
    never reads [g_running], a tick after the handler pushes the buffer
    it would have pushed before. *)
Theorem sigint_handler_does_not_stop_the_pump :
  forall (w : world) (flow : GstFlowReturn),
    exists w',
      sigint_handler w = Ok tt w' /\
      g_running w' = false /\
      trace w' = trace w ++ (if g_appsrc w then [EvEndOfStream] else []) /\
      timer_armed w' = timer_armed w /\
      loop_is_running w' = loop_is_running w /\
      pushed (trace (final_world (push_frame flow w')))
      = pushed (trace (final_world (push_frame flow w))).
Proof.
  intros w flow. unfold sigint_handler, bind, get. cbn [set_g_running g_appsrc].
  destruct (g_appsrc w); cbn [emit ret]; eexists; (split; [reflexivity|]);
    cbn [g_running trace timer_armed loop_is_running]; rewrite ?app_nil_r;
    (repeat split); apply push_frame_reads; cbn [frame bytes_used timestamp trace];
    rewrite ?pushed_app, ?app_nil_r; reflexivity.
Qed.

(** ** The destination in the launch line *)

Local Open Scope string_scope.

Lemma string_append_assoc (a b c : string) : a ++ b ++ c = (a ++ b) ++ c.
Proof. induction a as [|x a IH]; simpl; [reflexivity | rewrite IH; reflexivity]. Qed.

Lemma substring_app_short (a b : string) :
  forall n, (String.length a <= n)%nat ->
            substring 0 n (a ++ b) = a ++ substring 0 (n - String.length a) b.
Proof.
  induction a as [|x a IH]; intros n Hn; simpl in *.
  - rewrite Nat.sub_0_r. reflexivity.
  - destruct n as [|n]; [lia|]. simpl. rewrite IH by lia. reflexivity.
Qed.

Lemma substring_app_long (a b : string) :
  forall n, (n <= String.length a)%nat ->
            substring 0 n (a ++ b) = substring 0 n a.
Proof.
  induction a as [|x a IH]; intros n Hn; simpl in *.
  - replace n with 0%nat by lia. destruct b; reflexivity.
  - destruct n as [|n]; [reflexivity|]. simpl. rewrite IH by lia. reflexivity.
Qed.

Lemma take_until_substring (stop : ascii) (ip r : string) :
  forall k, (String.length ip < k)%nat ->
            take_until stop (substring 0 k (ip ++ String stop r))
            = take_until stop ip.
Proof.
  induction ip as [|c ip IH]; intros k Hk; simpl in *.
  - destruct k as [|k]; [lia|]. simpl. rewrite Ascii.eqb_refl. reflexivity.
  - destruct k as [|k]; [lia|]. simpl.
    destruct (Ascii.eqb c stop); [reflexivity|]. rewrite IH by lia. reflexivity.
Qed.

Lemma string_length_append (a b : string) :
  String.length (a ++ b) = (String.length a + String.length b)%nat.
Proof. induction a as [|x a IH]; simpl; [reflexivity | rewrite IH; reflexivity]. Qed.

Lemma length_substring_le (s : string) :
  forall n, (String.length (substring 0 n s) <= n)%nat.
Proof.
  induction s as [|c s IH]; intros [|n]; simpl; try lia.
  specialize (IH n). lia.
Qed.

Lemma find_after_skip (key : string) (c : ascii) (s : string) :
  prefix key (String c s) = false ->
  find_after key (String c s) = find_after key s.
Proof. intros H. cbn [find_after]. rewrite H. reflexivity. Qed.

Lemma find_after_here (key s : string) :
  prefix key s = true -> find_after key s = Some (drop (String.length key) s).
Proof. intros H. destruct s; cbn [find_after]; rewrite H; reflexivity. Qed.

(** The launch line is the fixed text up to [host=], followed by the
    destination and the rest, cut to the size of the buffer. *)
Lemma pipeline_desc_shape (ip : string) (port : Z) :
  exists head : string,
    String.length head = 262%nat /\
    (forall y, find_after "host=" (head ++ y) = Some y) /\
    pipeline_desc ip port
    = head ++ substring 0 761 (ip ++ String " " ("port=" ++ fmt_d port
                                               ++ " auto-multicast=false")).
Proof.
  unfold pipeline_desc, snprintf.
  set (rest := ip ++ " port=" ++ fmt_d port ++ " auto-multicast=false").
  rewrite !string_append_assoc.
  match goal with
  | |- context [substring 0 _ (?a ++ rest)] => exists a
  end.
  split; [vm_compute; reflexivity|].
  split.
  { intros y. cbn [append].
    repeat (rewrite find_after_skip by reflexivity).
    rewrite find_after_here by (destruct y; reflexivity).
    reflexivity. }
  rewrite substring_app_short by (vm_compute; lia).
  reflexivity.
Qed.

Lemma take_until_host_chars (ip : string) :
  all_host_chars ip = true -> take_until " " ip = ip.
Proof.
  induction ip as [|c ip IH]; intros H; [reflexivity|].
  cbn [all_host_chars] in H. apply andb_true_iff in H. destruct H as [Hc Hr].
  cbn [take_until].
  destruct (Ascii.eqb_spec c " ") as [->|_]; [vm_compute in Hc; discriminate Hc|].
  rewrite (IH Hr). reflexivity.
Qed.

(** X15.  A destination on the command line that is a numeric address or
    a host name (not empty, made of digits, letters, dots, hyphens and
    colons, at most 700 characters) is the host of the UDP sink in the
    launch line, unchanged. *)
Theorem destination_is_the_udp_host :
  forall (ip : string) (port : Z),
    ip <> "" -> all_host_chars ip = true ->
    (String.length ip <= 700)%nat ->
    property_value "host" (pipeline_desc ip port) = Some ip.
Proof.
  intros ip port _ Hchars Hlen.
  destruct (pipeline_desc_shape ip port) as (head & _ & Hfind & ->).
  unfold property_value. change ("host" ++ "=") with "host=".
  rewrite Hfind. cbn [option_map]. f_equal.
  rewrite take_until_substring by lia.
  apply take_until_host_chars. exact Hchars.
Qed.

Lemma destination_is_the_udp_host_witness :
  property_value "host" (pipeline_desc "192.168.1.50" 5000)
  = Some "192.168.1.50".
Proof.
  apply destination_is_the_udp_host.
  - discriminate.
  - vm_compute. reflexivity.
  - vm_compute. lia.
Defined.

(** X16.  The launch line is cut to the 1023 characters the buffer
    holds: with a destination of 761 characters or more the port never
    gets into it, so the line is the same whatever the port. *)
Theorem long_destination_drops_the_port :
  forall (ip : string) (port1 port2 : Z),
    (761 <= String.length ip)%nat ->
    pipeline_desc ip port1 = pipeline_desc ip port2 /\
    (String.length (pipeline_desc ip port1) <= 1023)%nat.
Proof.
  intros ip port1 port2 Hlen.
  assert (Hcut : forall port,
            exists head, String.length head = 262%nat /\
                         pipeline_desc ip port = head ++ substring 0 761 ip).
  { intros port. destruct (pipeline_desc_shape ip port) as (h & Hl & _ & H).
    exists h. split; [exact Hl|]. rewrite H.
    rewrite substring_app_long by exact Hlen. reflexivity. }
  split.
  - unfold pipeline_desc, snprintf.
    set (r1 := ip ++ " port=" ++ fmt_d port1 ++ " auto-multicast=false").
    set (r2 := ip ++ " port=" ++ fmt_d port2 ++ " auto-multicast=false").
    rewrite !string_append_assoc.
    rewrite !substring_app_short by (vm_compute; lia).
    f_equal. unfold r1, r2.
    match goal with
    | |- substring 0 ?k _ = _ =>
        replace k with 761%nat by (vm_compute; reflexivity)
    end.
    rewrite !substring_app_long by exact Hlen. reflexivity.
  - destruct (Hcut port1) as (h & Hl & ->).
    rewrite string_length_append, Hl.
    pose proof (length_substring_le ip 761). lia.
Qed.

Lemma long_destination_witness :
  pipeline_desc (string_of_list_ascii (repeat "9"%char 761)) 5000
  = pipeline_desc (string_of_list_ascii (repeat "9"%char 761)) 6000 /\
  (String.length (pipeline_desc (string_of_list_ascii (repeat "9"%char 761)) 5000)
   <= 1023)%nat.
Proof.
  apply long_destination_drops_the_port. vm_compute. lia.
Defined.

Local Close Scope string_scope.
